(** * gogive: vanity import paths for the go tool

    A shallow embedding of [gogive.go] and the properties of its route
    table, its configuration loader, its resolver and its reload loop.

    Go strings are byte strings ([string] of [ascii]); the [Router] map is a
    [gmap string Source]; the line counter is a 64-bit [int] carried as a
    [Z] with its wrap-around; the goroutine of [loadConfig] and the
    handlers that read from its channel are a labelled transition system.
    The variant of the program that reads its file with [bufio.Reader] is
    in the module [ReaderVariant]. *)

From Stdlib Require Import ZArith Ascii.
From stdpp Require Import gmap strings list fin_maps pretty.

Local Open Scope Z_scope.

(** ** The parts of Go's [strings] package the program calls *)

Module strings.

(** [strings.HasPrefix(s, prefix)]. *)
Definition HasPrefix (s prefix : string) : bool := String.prefix prefix s.

(** [strings.Split(s, sep)] for a separator of one byte, the only way the
    program calls it ([sep] is "/"). The result has one element more than
    [s] has separators, so it is never empty. *)
Fixpoint Split (s : string) (sep : ascii) : list string :=
  match s with
  | EmptyString => [EmptyString]
  | String c s' =>
      if Ascii.eqb c sep then EmptyString :: Split s' sep
      else match Split s' sep with
           | [] => [String c EmptyString]
           | x :: xs => String c x :: xs
           end
  end.

(** [strings.Join(elems, sep)]. *)
Fixpoint Join (elems : list string) (sep : string) : string :=
  match elems with
  | [] => EmptyString
  | x :: rest =>
      match rest with
      | [] => x
      | _ :: _ => x +:+ sep +:+ Join rest sep
      end
  end.

(** [unicode.IsSpace] on the UTF-8 encoding. White space is U+0009..U+000D
    and U+0020 (one byte), U+0085 and U+00A0 (two bytes: C2 85, C2 A0),
    U+1680 (E1 9A 80), U+2000..U+200A, U+2028, U+2029 and U+202F
    (E2 80 80..8A, E2 80 A8, E2 80 A9, E2 80 AF), U+205F (E2 81 9F) and
    U+3000 (E3 80 80). The lead bytes C2, E1, E2 and E3 are never
    continuation bytes, so Go's decoder always starts a rune on them. *)
Definition byte (c : ascii) : N := N_of_ascii c.

Definition space2 (c d : ascii) : bool :=
  (byte c =? 0xC2)%N && ((byte d =? 0x85)%N || (byte d =? 0xA0)%N).

Definition space3 (c d e : ascii) : bool :=
  (byte c =? 0xE1)%N && (byte d =? 0x9A)%N && (byte e =? 0x80)%N
  || (byte c =? 0xE2)%N && (byte d =? 0x80)%N
     && ((0x80 <=? byte e)%N && (byte e <=? 0x8A)%N
         || (byte e =? 0xA8)%N || (byte e =? 0xA9)%N || (byte e =? 0xAF)%N)
  || (byte c =? 0xE2)%N && (byte d =? 0x81)%N && (byte e =? 0x9F)%N
  || (byte c =? 0xE3)%N && (byte d =? 0x80)%N && (byte e =? 0x80)%N.

(** The number of bytes of the white space rune [s] starts with, [0] when
    it starts with none. *)
Definition space_width (s : string) : nat :=
  match s with
  | EmptyString => 0%nat
  | String c s1 =>
      if Ascii.is_space c then 1%nat
      else
        match s1 with
        | EmptyString => 0%nat
        | String d s2 =>
            if space2 c d then 2%nat
            else
              match s2 with
              | EmptyString => 0%nat
              | String e _ => if space3 c d e then 3%nat else 0%nat
              end
        end
  end.

(** The field that ends where white space or the end of the string is
    met: nothing when no field is open. *)
Definition flush (cur : string) : list string :=
  match cur with
  | EmptyString => []
  | String _ _ => [cur]
  end.

(** The scan of [strings.Fields]: [skip] counts the bytes of the current
    white space rune still to pass, [cur] holds the bytes of the open
    field. *)
Fixpoint fields_scan (s : string) (skip : nat) (cur : string) : list string :=
  match s with
  | EmptyString => flush cur
  | String c s' =>
      match skip with
      | S k => fields_scan s' k cur
      | O =>
          match space_width s with
          | O => fields_scan s' 0 (cur +:+ String c EmptyString)
          | S k => flush cur ++ fields_scan s' k EmptyString
          end
      end
  end.

(** [strings.Fields(s)]: the maximal runs of bytes that are not white
    space. *)
Definition Fields (s : string) : list string := fields_scan s 0 EmptyString.

(** A white space rune starts somewhere in [s]. *)
Fixpoint ContainsSpace (s : string) : bool :=
  match s with
  | EmptyString => false
  | String _ s' => (0 <? space_width s)%nat || ContainsSpace s'
  end.

End strings.

(** ** The data model *)

Record Source := { Vcs : string; Url : string }.

Abbreviation Router := (gmap string Source).

(** ** [findPath] *)

(** The loop of [findPath]: [nodes] is the backing array of the slice and
    [k] its length, which [nodes = nodes[:len(nodes)-1]] decrements. *)
Fixpoint findPath_loop (r : Router) (nodes : list string) (k : nat)
  : option (Source * string) :=
  match k with
  | O => None
  | S k' =>
      let path := strings.Join (take k nodes) "/" in
      match r !! path with
      | Some src => Some (src, path)
      | None => findPath_loop r nodes k'
      end
  end.

(** [func (r Router) findPath(path string) (Source, string, bool)]: [None]
    stands for the result [Source{}, "", false]. *)
Definition findPath (r : Router) (path : string) : option (Source * string) :=
  let nodes := strings.Split path "/" in
  findPath_loop r nodes (length nodes).

(** ** Errors, files and [NewRouter] *)

(** The values of Go's [error] the program meets: the errors of [os.Open]
    and of the reads under [bufio.Scanner], which the program only passes
    on, and the one it makes itself,
    [fmt.Errorf("%s:%d: duplicate entry %s", filename, n, fields[0])]. *)
Inductive error :=
| SysError (msg : string)
| DuplicateEntry (filename : string) (n : Z) (entry : string).

(** The method [Error()] of an [error]. *)
Definition Error (e : error) : string :=
  match e with
  | SysError msg => msg
  | DuplicateEntry filename n entry =>
      filename +:+ ":" +:+ pretty n +:+ ": duplicate entry " +:+ entry
  end.

(** What a [bufio.Scanner] makes of an open file: the lines [scanner.Text()]
    holds after each [scanner.Scan()] that returns true, and the value of
    [scanner.Err()] once [Scan] has returned false. *)
Record File := { Text : list string; Err : option error }.

(** The file system, as [os.Open] sees it. *)
Definition FS := string -> error + File.

(** Go's [int] on a 64-bit target: [n++] wraps around. *)
Definition int_wrap (z : Z) : Z := (z + 2 ^ 63) mod 2 ^ 64 - 2 ^ 63.

(** The body of [for scanner.Scan() { ... }] over the lines still to come:
    [n] is the line counter and [r] the map built so far. [inl] is the
    early [return nil, fmt.Errorf(...)], [inr] the map at the end of the
    loop. *)
Fixpoint scan_loop (filename : string) (text : list string) (n : Z) (r : Router)
  : error + Router :=
  match text with
  | [] => inr r
  | line :: rest =>
      let n := int_wrap (n + 1) in
      if strings.HasPrefix line "#" then scan_loop filename rest n r
      else
        let fields := strings.Fields line in
        if (length fields =? 0)%nat then scan_loop filename rest n r
        else if negb (length fields =? 3)%nat then scan_loop filename rest n r
        else
          match r !! (fields !!! 0%nat) with
          | Some _ => inl (DuplicateEntry filename n (fields !!! 0%nat))
          | None =>
              scan_loop filename rest n
                (<[fields !!! 0%nat :=
                     {| Vcs := fields !!! 1%nat; Url := fields !!! 2%nat |}]> r)
          end
  end.

(** [func NewRouter(filename string) (Router, error)]. The first component
    is [None] for the nil map. *)
Definition NewRouter (fs : FS) (filename : string) : option Router * option error :=
  match fs filename with
  | inl err => (None, Some err)
  | inr file =>
      match scan_loop filename (Text file) 0 ∅ with
      | inl e => (None, Some e)
      | inr r => (Some r, Err file)
      end
  end.

(** ** [loadConfig] and the handlers *)

Record Server := { config : string }.

(** Where the goroutine of [loadConfig] stands: in its first call of
    [NewRouter]; in the [select], offering [r] on [srv.Routes]; in the call
    of [NewRouter] of the case [<-sig], still holding [r]; or returned with
    an error, which [main] hands to [log.Fatal]. *)
Inductive supervisor :=
| Initializing
| Serving (r : Router)
| Reloading (r : Router)
| Exited (err : error).

(** What happens to the goroutine: the call of [NewRouter] under way
    returns, having found the files as [fs] has them; a SIGHUP reaches the
    process; a handler receives from [srv.Routes]. *)
Inductive event :=
| Loaded (fs : FS)
| Sighup
| Receive.

Inductive effect :=
| Silent
| Log (err : error)
| Deliver (r : Router).

(** A nil map reads as the empty map. *)
Definition table (r : option Router) : Router := default ∅ r.

(** One step of [loadConfig]. [None]: the event cannot take place in this
    state. [srv.Routes] and [sig] have no buffer: a receive takes place only
    while the goroutine is in the [select], and a SIGHUP that finds the
    goroutine elsewhere is dropped by [signal.Notify]. Before
    [signal.Notify] a SIGHUP is not the program's to handle. *)
Definition step (srv : Server) (st : supervisor) (ev : event)
  : option (supervisor * effect) :=
  match st, ev with
  | Initializing, Loaded fs =>
      match NewRouter fs (config srv) with
      | (_, Some err) => Some (Exited err, Silent)
      | (r, None) => Some (Serving (table r), Silent)
      end
  | Serving r, Receive => Some (Serving r, Deliver r)
  | Serving r, Sighup => Some (Reloading r, Silent)
  | Reloading r, Loaded fs =>
      match NewRouter fs (config srv) with
      | (_, Some err) => Some (Serving r, Log err)
      | (nr, None) => Some (Serving (table nr), Silent)
      end
  | Reloading r, Sighup => Some (Reloading r, Silent)
  | _, _ => None
  end.

(** A run of [loadConfig] over a list of events, with the effects in
    order. *)
Fixpoint run (srv : Server) (st : supervisor) (evs : list event)
  : option (supervisor * list effect) :=
  match evs with
  | [] => Some (st, [])
  | ev :: evs' =>
      match step srv st ev with
      | None => None
      | Some (st', eff) =>
          match run srv st' evs' with
          | None => None
          | Some (st'', effs) => Some (st'', eff :: effs)
          end
      end
  end.

(** The parts of [*http.Request] the handler reads. *)
Record Request := {
  Method : string;
  URL_Path : string;
  Host : string;
  FormValue : string -> string
}.

(** The anonymous struct [match] the template is executed on. *)
Record Match := { match_Source : Source; match_Host : string; match_Path : string }.

(** What the handler writes: [http.Error(w, msg, code)],
    [http.Redirect(w, r, url, code)] or [pageTmpl.Execute(w, match)]. *)
Inductive Response :=
| HttpError (msg : string) (code : Z)
| Redirect (url : string) (code : Z)
| Page (m : Match).

(** A handler either answers at once or first receives from [s.Routes]. *)
Inductive handler :=
| Answer (resp : Response)
| Routes (k : Router -> Response).

Definition StatusSeeOther : Z := 303.

(** [func (s *Server) ServeHTTP(w http.ResponseWriter, r *http.Request)]. *)
Definition ServeHTTP (r : Request) : handler :=
  if negb (String.eqb (Method r) "GET") then
    Answer (HttpError "Method Not Allowed" 405)
  else
    Routes (fun routes =>
      match findPath routes (URL_Path r) with
      | None => HttpError "Not Found" 404
      | Some (src, root) =>
          if negb (String.eqb (FormValue r "go-get") "1") then
            Redirect ("http://godoc.org/" +:+ Host r +:+ URL_Path r) StatusSeeOther
          else
            Page {| match_Source := src; match_Host := Host r; match_Path := root |}
      end).

(** The table a receive from [srv.Routes] yields in state [st], if the
    receive can take place there. *)
Definition current (srv : Server) (st : supervisor) : option Router :=
  match step srv st Receive with
  | Some (_, Deliver r) => Some r
  | _ => None
  end.

(** A request served while [loadConfig] is in state [st]: [None] when the
    handler has to wait. *)
Definition serve (srv : Server) (st : supervisor) (r : Request) : option Response :=
  match ServeHTTP r with
  | Answer resp => Some resp
  | Routes k => k <$> current srv st
  end.

(** * The variant that reads with [bufio.Reader]

    A second source file of the repository holds a variant of the program:
    its [NewRouter] reads the file with [ReadString] and returns an error
    for a line that has not three fields, and its [Run] (the [loadConfig]
    of the variant) keeps whatever a reload returns. [findPath] is the
    same. *)

Module ReaderVariant.

(** The errors of the variant: those of [os.Open] and of the reads,
    [fmt.Errorf("%s:%d: too many fields in `%s'", filename, n, line)],
    [fmt.Errorf("%s:%d: duplicate entry %s", filename, n, fields[0])] and
    [fmt.Errorf("Interrupt")]. *)
Inductive error :=
| SysError (msg : string)
| TooManyFields (filename : string) (n : Z) (line : string)
| DuplicateEntry (filename : string) (n : Z) (entry : string)
| Interrupt.

(** An open file: the bytes the reads deliver, and the error that ends
    them, [None] for [io.EOF]. *)
Record File := { Data : string; ReadErr : option error }.

Definition FS := string -> error + File.

(** The strings the successive calls of [buf.ReadString('\n')] return with
    a nil error, each with its newline, and the rest of the data, which the
    last call returns together with the error. *)
Fixpoint read_lines (data : string) : list string * string :=
  match data with
  | EmptyString => ([], EmptyString)
  | String c data' =>
      let (lines, rest) := read_lines data' in
      if Ascii.eqb c "010" then (String c EmptyString :: lines, rest)
      else
        match lines with
        | [] => ([], String c rest)
        | line :: lines' => (String c line :: lines', rest)
        end
  end.

(** The body of the [for] loop over the lines read with a nil error. *)
Fixpoint read_loop (filename : string) (lines : list string) (n : Z) (r : Router)
  : error + Router :=
  match lines with
  | [] => inr r
  | line :: rest =>
      let n := int_wrap (n + 1) in
      if (String.length line <? 2)%nat then read_loop filename rest n r
      else if match String.get 0 line with
              | Some c => Ascii.eqb c "#"
              | None => false
              end
      then read_loop filename rest n r
      else
        let fields := strings.Fields line in
        if negb (length fields =? 3)%nat then inl (TooManyFields filename n line)
        else
          match r !! (fields !!! 0%nat) with
          | Some _ => inl (DuplicateEntry filename n (fields !!! 0%nat))
          | None =>
              read_loop filename rest n
                (<[fields !!! 0%nat :=
                     {| Vcs := fields !!! 1%nat; Url := fields !!! 2%nat |}]> r)
          end
  end.

(** [func NewRouter(filename string) (Router, error)] of the variant. *)
Definition NewRouter (fs : FS) (filename : string) : option Router * option error :=
  match fs filename with
  | inl err => (None, Some err)
  | inr file =>
      match read_loop filename (read_lines (Data file)).1 0 ∅ with
      | inl e => (None, Some e)
      | inr r =>
          match ReadErr file with
          | Some err => (None, Some err)
          | None => (Some r, None)
          end
      end
  end.

(** The signals [Run] asks for with [signal.Notify]. *)
Inductive signal := SIGHUP | os_Interrupt | os_Kill.

(** Where the goroutine of [Run] stands; the map it holds may be nil. *)
Inductive supervisor :=
| Initializing
| Serving (r : option Router)
| Reloading (r : option Router)
| Exited (err : error).

Inductive event :=
| Loaded (fs : FS)
| Signal (s : signal)
| Receive.

Inductive effect :=
| Silent
| Log (err : error)
| Deliver (r : option Router).

(** One step of [Run]: after a reload the goroutine holds what [NewRouter]
    returned, error or not. *)
Definition step (srv : Server) (st : supervisor) (ev : event)
  : option (supervisor * effect) :=
  match st, ev with
  | Initializing, Loaded fs =>
      match NewRouter fs (config srv) with
      | (_, Some err) => Some (Exited err, Silent)
      | (r, None) => Some (Serving r, Silent)
      end
  | Serving r, Receive => Some (Serving r, Deliver r)
  | Serving r, Signal SIGHUP => Some (Reloading r, Silent)
  | Serving r, Signal _ => Some (Exited Interrupt, Silent)
  | Reloading r, Loaded fs =>
      match NewRouter fs (config srv) with
      | (nr, Some err) => Some (Serving nr, Log err)
      | (nr, None) => Some (Serving nr, Silent)
      end
  | Reloading r, Signal _ => Some (Reloading r, Silent)
  | _, _ => None
  end.

Fixpoint run (srv : Server) (st : supervisor) (evs : list event)
  : option (supervisor * list effect) :=
  match evs with
  | [] => Some (st, [])
  | ev :: evs' =>
      match step srv st ev with
      | None => None
      | Some (st', eff) =>
          match run srv st' evs' with
          | None => None
          | Some (st'', effs) => Some (st'', eff :: effs)
          end
      end
  end.

(** A line the loop of the variant passes over: shorter than two bytes, or
    starting with "#". *)
Definition passed_over (line : string) : bool :=
  (String.length line <? 2)%nat
  || match String.get 0 line with
     | Some c => Ascii.eqb c "#"
     | None => false
     end.

(** A newline is among the bytes of [s]. *)
Fixpoint has_newline (s : string) : bool :=
  match s with
  | EmptyString => false
  | String c s' => Ascii.eqb c "010" || has_newline s'
  end.

Definition spaces_file : File :=
  {| Data := "/www hg https://example.org/www" +:+ String "010" ("  " +:+ String "010" "");
     ReadErr := None |}.

Definition spaces_fs : FS := fun _ => inr spaces_file.

Definition unterminated_file : File :=
  {| Data := Data spaces_file +:+ "/net git"; ReadErr := None |}.

Definition unterminated_fs : FS := fun _ => inr unterminated_file.

Definition missing_fs : FS :=
  fun name => inl (SysError ("open " +:+ name +:+ ": no such file or directory")).

End ReaderVariant.

(** * The vocabulary of the properties *)

(** ** Paths *)

(** In the words of the specification, [prefix] is a segment-wise ancestor
    of [path]: it is [path] itself, or [path] goes on after it with a "/".
    So "/net" is an ancestor of "/net" and of "/net/lldp", not of
    "/network". *)
Definition segment_ancestor (prefix path : string) : Prop :=
  prefix = path \/ exists rest, path = prefix +:+ "/" +:+ rest.

(** The string [findPath] tests when [j] segments are left. *)
Definition candidate (path : string) (j : nat) : string :=
  strings.Join (take j (strings.Split path "/")) "/".

(** ** Fields *)

(** Every suffix of [cur] that is not empty starts with no white space rune
    when [rest] follows it. *)
Fixpoint clean (cur rest : string) : bool :=
  match cur with
  | EmptyString => true
  | String c cur' =>
      (strings.space_width (String c cur' +:+ rest) =? 0)%nat && clean cur' rest
  end.

(** ** Lines and records *)

Definition is_comment (line : string) : bool := strings.HasPrefix line "#".

Definition is_blank (line : string) : bool :=
  (length (strings.Fields line) =? 0)%nat.

(** The record a line stands for, if any: the line is no comment and has
    exactly three fields. *)
Definition record_of (line : string) : option (string * Source) :=
  if strings.HasPrefix line "#" then None
  else
    match strings.Fields line with
    | [prefix; vcs; url] => Some (prefix, {| Vcs := vcs; Url := url |})
    | _ => None
    end.

(** The record at line [i] of [text], counting from 0. *)
Definition record_at (text : list string) (i : nat) : option (string * Source) :=
  text !! i ≫= record_of.

(** The records of the lines of [text], in order. *)
Definition records (text : list string) : list (string * Source) :=
  omap record_of text.

(** A line that is a comment, is blank or has three fields. *)
Definition well_formed_line (line : string) : bool :=
  is_comment line || is_blank line || (length (strings.Fields line) =? 3)%nat.

(** A line that is no comment, is not blank and has not three fields. *)
Definition malformed (line : string) : bool := negb (well_formed_line line).


(** The file with each malformed line replaced by an empty line. *)
Definition blank_malformed (file : File) : File :=
  {| Text := (fun line => if malformed line then "" else line) <$> Text file;
     Err := Err file |}.

Definition blank_malformed_fs (fs : FS) : FS :=
  fun name =>
    match fs name with
    | inl err => inl err
    | inr file => inr (blank_malformed file)
    end.

(** ** Files, servers and requests of the examples *)

Definition example_file : File :=
  {| Text := [""; "# comment"; "/net/lldp git https://example.org/net/lldp.git";
              "/www hg https://example.org/www"];
     Err := None |}.

Definition example_fs : FS := fun _ => inr example_file.

Definition short_file : File :=
  {| Text := ["/net git"; "/www hg https://example.org/www"]; Err := None |}.

Definition short_fs : FS := fun _ => inr short_file.

Definition reversed_file : File :=
  {| Text := ["/www hg https://example.org/www"; "# comment";
              "/net/lldp git https://example.org/net/lldp.git"; ""];
     Err := None |}.

Definition reversed_fs : FS := fun _ => inr reversed_file.

Definition duplicate_file : File :=
  {| Text := ["# routes"; "/www hg https://example.org/www";
              "/www git https://example.org/www.git"];
     Err := None |}.

Definition duplicate_fs : FS := fun _ => inr duplicate_file.

Definition longer_file : File :=
  {| Text := Text duplicate_file ++ ["/net/lldp git https://example.org/net/lldp.git"];
     Err := None |}.

Definition longer_fs : FS := fun _ => inr longer_file.

Definition missing_fs : FS :=
  fun name => inl (SysError ("open " +:+ name +:+ ": no such file or directory")).

Definition example_srv : Server := {| config := "config" |}.

Definition example_table : Router :=
  <["/www" := {| Vcs := "hg"; Url := "https://example.org/www" |}]>
    (<["/net/lldp" := {| Vcs := "git"; Url := "https://example.org/net/lldp.git" |}]> ∅).

Definition get_request : Request :=
  {| Method := "GET"; URL_Path := "/net/lldp/internal"; Host := "example.org";
     FormValue := fun key => if String.eqb key "go-get" then "1" else "" |}.

Definition other_request : Request :=
  {| Method := "GET"; URL_Path := "/other"; Host := "example.org";
     FormValue := fun key => if String.eqb key "go-get" then "1" else "" |}.

Definition browser_request : Request :=
  {| Method := "GET"; URL_Path := "/net/lldp/internal"; Host := "example.org";
     FormValue := fun _ => "" |}.

Definition www_request : Request :=
  {| Method := "GET"; URL_Path := "/www"; Host := "example.org";
     FormValue := fun key => if String.eqb key "go-get" then "1" else "" |}.

Definition post_request : Request :=
  {| Method := "POST"; URL_Path := "/net/lldp"; Host := "example.org";
     FormValue := fun key => if String.eqb key "go-get" then "1" else "" |}.

(** * Properties *)

(** ** Byte strings *)

Section string_facts.

Lemma app_cons (c : ascii) (s t : string) : String c s +:+ t = String c (s +:+ t).
Proof. reflexivity. Qed.

Lemma app_empty_r (s : string) : s +:+ "" = s.
Proof. induction s as [|c s IH]; [done|]. by rewrite app_cons, IH. Qed.

Lemma app_assoc_s (s t u : string) : (s +:+ t) +:+ u = s +:+ t +:+ u.
Proof. induction s as [|c s IH]; [done|]. by rewrite !app_cons, IH. Qed.

Lemma app_length_s (s t : string) :
  String.length (s +:+ t) = (String.length s + String.length t)%nat.
Proof. induction s as [|c s IH]; [done|]. rewrite app_cons. simpl. by rewrite IH. Qed.

Lemma HasPrefix_app (s t : string) : strings.HasPrefix (s +:+ t) s = true.
Proof.
  unfold strings.HasPrefix. induction s as [|c s IH]; [by destruct t|].
  rewrite app_cons. simpl. by destruct (ascii_dec c c).
Qed.

Lemma HasPrefix_inv (s p : string) :
  strings.HasPrefix s p = true -> exists t, s = p +:+ t.
Proof.
  unfold strings.HasPrefix. revert s. induction p as [|c p IH]; intros s H.
  - by exists s.
  - destruct s as [|d s]; [done|]. simpl in H.
    destruct (ascii_dec c d) as [->|]; [|done].
    destruct (IH _ H) as [t ->]. by exists t.
Qed.

End string_facts.

(** ** [Split] and [Join] *)

Section split_join.

Variable sep : ascii.

Lemma Split_not_nil (s : string) : strings.Split s sep <> [].
Proof.
  destruct s as [|c s]; simpl; [done|].
  destruct (Ascii.eqb c sep); [done|]. by destruct (strings.Split s sep).
Qed.

Lemma Split_length_pos (s : string) : (0 < length (strings.Split s sep))%nat.
Proof.
  pose proof (Split_not_nil s). destruct (strings.Split s sep); simpl; [done|lia].
Qed.

Lemma Join_cons (x : string) (l : list string) (sp : string) :
  l <> [] -> strings.Join (x :: l) sp = x +:+ sp +:+ strings.Join l sp.
Proof. by destruct l. Qed.

Lemma Join_app (a b : list string) (sp : string) :
  a <> [] -> b <> [] ->
  strings.Join (a ++ b) sp = strings.Join a sp +:+ sp +:+ strings.Join b sp.
Proof.
  intros Ha Hb. induction a as [|x a IH]; [done|].
  destruct a as [|y a].
  - simpl app. by rewrite Join_cons.
  - rewrite <- app_comm_cons. rewrite Join_cons by done.
    rewrite IH by done. rewrite (Join_cons x (y :: a)) by done.
    by rewrite !app_assoc_s.
Qed.

(** Joining what [Split] made gives the string back. *)
Lemma Join_Split (s : string) :
  strings.Join (strings.Split s sep) (String sep "") = s.
Proof.
  induction s as [|c s IH]; [done|]. simpl strings.Split.
  destruct (Ascii.eqb_spec c sep) as [->|Hne].
  - rewrite Join_cons by apply Split_not_nil. by rewrite IH.
  - pose proof (Split_not_nil s) as Hnil.
    destruct (strings.Split s sep) as [|x xs]; [done|].
    destruct xs as [|y xs].
    + simpl in *. by rewrite IH.
    + rewrite Join_cons by done. rewrite Join_cons in IH by done.
      by rewrite app_cons, IH.
Qed.

(** [Split] goes through a separator. *)
Lemma Split_app (a b : string) :
  strings.Split (a +:+ String sep b) sep = strings.Split a sep ++ strings.Split b sep.
Proof.
  induction a as [|c a IH].
  - change ("" +:+ String sep b) with (String sep b). simpl.
    by rewrite Ascii.eqb_refl.
  - rewrite app_cons. simpl. destruct (Ascii.eqb c sep); [by rewrite IH|].
    rewrite IH. pose proof (Split_not_nil a).
    by destruct (strings.Split a sep).
Qed.

End split_join.

(** ** [findPath]: the longest ancestor on segment boundaries *)

Lemma candidate_full (path : string) :
  candidate path (length (strings.Split path "/")) = path.
Proof. unfold candidate. rewrite firstn_all. apply Join_Split. Qed.

Lemma candidate_ancestor (path : string) (j : nat) :
  (1 <= j <= length (strings.Split path "/"))%nat ->
  segment_ancestor (candidate path j) path.
Proof.
  intros Hj. unfold candidate.
  destruct (decide (j = length (strings.Split path "/"))) as [->|Hne].
  - left. apply candidate_full.
  - right. exists (strings.Join (drop j (strings.Split path "/")) "/").
    rewrite <- Join_app.
    + by rewrite take_drop, Join_Split.
    + intros Hnil. apply (f_equal length) in Hnil.
      rewrite length_take in Hnil. simpl in Hnil. lia.
    + intros Hnil. apply (f_equal length) in Hnil.
      rewrite length_drop in Hnil. simpl in Hnil. lia.
Qed.

Lemma ancestor_candidate (prefix path : string) :
  segment_ancestor prefix path ->
  exists j, (1 <= j <= length (strings.Split path "/"))%nat /\ prefix = candidate path j.
Proof.
  intros [->|[rest ->]].
  - exists (length (strings.Split path "/")). split.
    + pose proof (Split_length_pos "/" path). lia.
    + by rewrite candidate_full.
  - exists (length (strings.Split prefix "/")). unfold candidate.
    change ("/" +:+ rest) with (String "/" rest).
    rewrite Split_app, length_app. split.
    + pose proof (Split_length_pos "/" prefix). lia.
    + by rewrite take_app_length, Join_Split.
Qed.

Lemma candidate_length_mono (path : string) (j j' : nat) :
  (1 <= j <= j')%nat ->
  (String.length (candidate path j) <= String.length (candidate path j'))%nat.
Proof.
  intros Hj. unfold candidate.
  set (nodes := strings.Split path "/").
  destruct (decide (drop j (take j' nodes) = [])) as [Hnil|Hnil].
  - assert (take j' nodes = take j nodes) as ->; [|done].
    rewrite <- (take_drop j (take j' nodes)), Hnil, app_nil_r.
    rewrite take_take. f_equal. lia.
  - rewrite <- (take_drop j (take j' nodes)), take_take.
    replace (j `min` j')%nat with j by lia.
    rewrite Join_app; [|intros Hn|done].
    + rewrite app_length_s. lia.
    + apply (f_equal length) in Hn. rewrite length_take in Hn.
      pose proof (Split_length_pos "/" path). fold nodes in H.
      simpl in Hn. lia.
Qed.

(** What the loop returns from a slice of length [k]. *)
Lemma findPath_loop_Some (r : Router) (path : string) (k : nat) src root :
  findPath_loop r (strings.Split path "/") k = Some (src, root) ->
  exists j, (1 <= j <= k)%nat /\ root = candidate path j /\ r !! root = Some src /\
    forall j', (j < j' <= k)%nat -> r !! candidate path j' = None.
Proof.
  induction k as [|k IH]; [done|]. cbn [findPath_loop]. fold (candidate path (S k)).
  destruct (r !! candidate path (S k)) as [src'|] eqn:Hl.
  - intros [= <- <-]. exists (S k). repeat split; [lia|lia|done|]. intros; lia.
  - intros H. destruct (IH H) as (j & Hj & -> & Hsrc & Hlater).
    exists j. repeat split; [lia|lia|done|].
    intros j' Hj'. destruct (decide (j' = S k)) as [->|]; [done|]. apply Hlater. lia.
Qed.

Lemma findPath_loop_None (r : Router) (path : string) (k : nat) :
  findPath_loop r (strings.Split path "/") k = None ->
  forall j, (1 <= j <= k)%nat -> r !! candidate path j = None.
Proof.
  induction k as [|k IH]; [intros; lia|]. cbn [findPath_loop].
  fold (candidate path (S k)).
  destruct (r !! candidate path (S k)) as [src'|] eqn:Hl; [done|].
  intros H j Hj. destruct (decide (j = S k)) as [->|]; [done|]. apply IH; [done|lia].
Qed.

(** C3. For every route table and every request path, [findPath] returns
    either a registered prefix that is a segment-wise ancestor of the path,
    with its [Source], no registered ancestor of the path being longer, or
    nothing, and then no registered prefix is a segment-wise ancestor of the
    path. *)
Theorem findPath_longest_ancestor (r : Router) (path : string) :
  match findPath r path with
  | Some (src, root) =>
      r !! root = Some src /\ segment_ancestor root path /\
      forall prefix, is_Some (r !! prefix) -> segment_ancestor prefix path ->
        (String.length prefix <= String.length root)%nat
  | None => forall prefix, segment_ancestor prefix path -> r !! prefix = None
  end.
Proof.
  unfold findPath. cbv zeta.
  destruct (findPath_loop r _ _) as [[src root]|] eqn:Hloop.
  - apply findPath_loop_Some in Hloop as (j & Hj & -> & Hsrc & Hlater).
    split; [done|]. split; [by apply candidate_ancestor|].
    intros prefix [src' Hp] (j' & Hj' & ->)%ancestor_candidate.
    destruct (decide (j' <= j)%nat); [apply candidate_length_mono; lia|].
    rewrite Hlater in Hp by lia. done.
  - intros prefix (j & Hj & ->)%ancestor_candidate.
    by apply (findPath_loop_None r path _ Hloop).
Qed.

(** C6. With the table {"/net": S}, "/network" is not found and
    "/net/lldp" resolves to S with the root "/net". *)
Theorem findPath_segment_boundary (src : Source) :
  findPath {["/net" := src]} "/network" = None /\
  findPath {["/net" := src]} "/net/lldp" = Some (src, "/net").
Proof. split; reflexivity. Qed.

(** ** [Fields]: no field is empty or holds white space *)

Lemma space_width_app (t s : string) :
  strings.space_width (t +:+ s) = 0%nat -> strings.space_width t = 0%nat.
Proof.
  destruct t as [|c [|d [|e t]]]; [done|..]; rewrite ?app_cons; simpl.
  - by destruct (Ascii.is_space c).
  - change ("" +:+ s) with s. destruct (Ascii.is_space c); [done|].
    destruct s; [done|]. by destruct (strings.space2 c d).
  - done.
Qed.

Lemma clean_ContainsSpace (f : string) :
  clean f "" = true -> strings.ContainsSpace f = false.
Proof.
  induction f as [|c f IH]; [done|]. cbn [clean strings.ContainsSpace].
  rewrite app_empty_r. intros [Hw Hf]%andb_true_iff.
  apply Nat.eqb_eq in Hw. rewrite Hw, IH by done. done.
Qed.

Lemma clean_weaken (cur rest : string) : clean cur rest = true -> clean cur "" = true.
Proof.
  induction cur as [|c cur IH]; [done|]. cbn [clean].
  intros [Hw Hc]%andb_true_iff. apply Nat.eqb_eq, space_width_app in Hw.
  rewrite app_empty_r, Hw, IH by done. done.
Qed.

Lemma clean_snoc (cur : string) (c : ascii) (rest : string) :
  clean cur (String c rest) = true ->
  strings.space_width (String c rest) = 0%nat ->
  clean (cur +:+ String c "") rest = true.
Proof.
  intros Hc Hw. induction cur as [|d cur IH].
  - change ("" +:+ String c "") with (String c ""). cbn [clean].
    change (String c "" +:+ rest) with (String c rest). by rewrite Hw.
  - cbn [clean] in Hc. apply andb_true_iff in Hc as [Hd Hc].
    rewrite app_cons. cbn [clean]. rewrite <- app_cons, app_assoc_s.
    change (String c "" +:+ rest) with (String c rest).
    rewrite Hd. by apply IH.
Qed.

Lemma fields_scan_clean (s : string) (skip : nat) (cur f : string) :
  (skip <> 0%nat -> cur = "") -> clean cur s = true ->
  f ∈ strings.fields_scan s skip cur ->
  f <> "" /\ strings.ContainsSpace f = false.
Proof.
  revert skip cur. induction s as [|c s IH]; intros skip cur Hskip Hclean Hf.
  - destruct cur; simpl in Hf; [by apply elem_of_nil in Hf|].
    apply list_elem_of_singleton in Hf as ->. split; [done|].
    by apply clean_ContainsSpace.
  - cbn [strings.fields_scan] in Hf. destruct skip as [|k].
    + destruct (strings.space_width (String c s)) as [|k] eqn:Hw.
      * apply IH in Hf; [done|done|]. by apply clean_snoc.
      * apply elem_of_app in Hf as [Hf|Hf].
        -- destruct cur; simpl in Hf; [by apply elem_of_nil in Hf|].
           apply list_elem_of_singleton in Hf as ->. split; [done|].
           by eapply clean_ContainsSpace, clean_weaken.
        -- by apply IH in Hf.
    + rewrite Hskip in Hf by done. by apply IH in Hf.
Qed.

(** The fields of a line are not empty and hold no white space. *)
Lemma Fields_elem (s f : string) :
  f ∈ strings.Fields s -> f <> "" /\ strings.ContainsSpace f = false.
Proof. by apply fields_scan_clean. Qed.

(** ** [NewRouter]: the loop over the lines *)

Lemma int_wrap_plus (a b : Z) : int_wrap (int_wrap a + b) = int_wrap (a + b).
Proof.
  unfold int_wrap. f_equal.
  replace ((a + 2 ^ 63) mod 2 ^ 64 - 2 ^ 63 + b + 2 ^ 63)
    with ((a + 2 ^ 63) mod 2 ^ 64 + b) by lia.
  rewrite Zplus_mod_idemp_l. f_equal. lia.
Qed.

Lemma int_wrap_small (z : Z) : - 2 ^ 63 <= z < 2 ^ 63 -> int_wrap z = z.
Proof. intros Hz. unfold int_wrap. rewrite Z.mod_small; lia. Qed.

(** One turn of the loop, by the record the line stands for. *)
Lemma scan_loop_cons (filename line : string) (rest : list string) (n : Z) (r : Router) :
  scan_loop filename (line :: rest) n r =
    match record_of line with
    | None => scan_loop filename rest (int_wrap (n + 1)) r
    | Some (p, src) =>
        match r !! p with
        | Some _ => inl (DuplicateEntry filename (int_wrap (n + 1)) p)
        | None => scan_loop filename rest (int_wrap (n + 1)) (<[p := src]> r)
        end
    end.
Proof.
  cbn [scan_loop]. unfold record_of.
  destruct (strings.HasPrefix line "#"); [done|].
  by destruct (strings.Fields line) as [|f0 [|f1 [|f2 [|f3 fs]]]].
Qed.

Lemma record_at_0 (line : string) (rest : list string) :
  record_at (line :: rest) 0 = record_of line.
Proof. done. Qed.

Lemma record_at_S (line : string) (rest : list string) (i : nat) :
  record_at (line :: rest) (S i) = record_at rest i.
Proof. done. Qed.

(** The loop stops with an error at the first line whose record repeats the
    prefix of an earlier record, or a key of the map it started from. *)
Lemma scan_loop_inl (filename : string) (text : list string) (n : Z) (r : Router) e :
  scan_loop filename text n r = inl e ->
  exists m q src,
    record_at text m = Some (q, src) /\
    e = DuplicateEntry filename (int_wrap (n + Z.of_nat m + 1)) q /\
    (is_Some (r !! q) \/
     exists m' src', (m' < m)%nat /\ record_at text m' = Some (q, src')) /\
    (forall a p s, (a < m)%nat -> record_at text a = Some (p, s) ->
       r !! p = None /\
       forall b s', (b < a)%nat -> record_at text b <> Some (p, s')).
Proof.
  revert n r. induction text as [|line rest IH]; intros n r; [done|].
  rewrite scan_loop_cons.
  destruct (record_of line) as [[p src]|] eqn:Hrec.
  - destruct (r !! p) as [old|] eqn:Hp.
    + intros [= <-]. exists 0%nat, p, src. rewrite record_at_0.
      split; [done|]. split; [do 2 f_equal; lia|].
      split; [left; eauto|]. intros; lia.
    + intros (m & q & src' & Hm & -> & Hdup & Hfirst)%IH.
      exists (S m), q, src'. rewrite record_at_S. split; [done|].
      split; [rewrite <- Z.add_assoc, int_wrap_plus; do 2 f_equal; lia|]. split.
      * destruct Hdup as [Hq|(m' & s' & Hm' & Hq)].
        -- destruct (decide (p = q)) as [->|Hne].
           ++ right. exists 0%nat, src. rewrite record_at_0. split; [lia|done].
           ++ left. by rewrite lookup_insert_ne in Hq.
        -- right. exists (S m'), s'. rewrite record_at_S. split; [lia|done].
      * intros [|a] p0 s0 Ha Hrec0.
        -- rewrite record_at_0, Hrec in Hrec0. injection Hrec0 as <- <-.
           split; [done|]. intros; lia.
        -- rewrite record_at_S in Hrec0.
           destruct (Hfirst a p0 s0 ltac:(lia) Hrec0) as [Hnone Hb].
           assert (p <> p0) as Hne by (intros ->; by rewrite lookup_insert_eq in Hnone).
           rewrite lookup_insert_ne in Hnone by done. split; [done|].
           intros [|b] s' Hlt.
           ++ rewrite record_at_0, Hrec. congruence.
           ++ rewrite record_at_S. apply Hb. lia.
  - intros (m & q & src' & Hm & -> & Hdup & Hfirst)%IH.
    exists (S m), q, src'. rewrite record_at_S. split; [done|].
    split; [rewrite <- Z.add_assoc, int_wrap_plus; do 2 f_equal; lia|]. split.
    + destruct Hdup as [Hq|(m' & s' & Hm' & Hq)]; [by left|].
      right. exists (S m'), s'. rewrite record_at_S. split; [lia|done].
    + intros [|a] p0 s0 Ha Hrec0.
      * rewrite record_at_0, Hrec in Hrec0. done.
      * rewrite record_at_S in Hrec0.
        destruct (Hfirst a p0 s0 ltac:(lia) Hrec0) as [Hnone Hb].
        split; [done|]. intros [|b] s' Hlt.
        -- rewrite record_at_0, Hrec. done.
        -- rewrite record_at_S. apply Hb. lia.
Qed.

(** The loop runs to the end only when no record repeats a prefix, and the
    map it ends with holds the map it started from and the records of the
    lines, each once. *)
Lemma scan_loop_inr (filename : string) (text : list string) (n : Z) (r r' : Router) :
  scan_loop filename text n r = inr r' ->
  (forall a p s, record_at text a = Some (p, s) ->
     r !! p = None /\
     forall b s', (b < a)%nat -> record_at text b <> Some (p, s')) /\
  (forall p s, r' !! p = Some s <->
     r !! p = Some s \/ exists a, record_at text a = Some (p, s)) /\
  size r' = (size r + length (records text))%nat.
Proof.
  revert n r. induction text as [|line rest IH]; intros n r.
  - intros [= <-]. split; [done|]. split; [|simpl; lia].
    intros p s. split; [by left|]. by intros [?|[a ?]].
  - rewrite scan_loop_cons. unfold records. cbn [omap list_omap].
    fold (records rest).
    destruct (record_of line) as [[p src]|] eqn:Hrec.
    + destruct (r !! p) as [old|] eqn:Hp; [done|].
      intros (Hfresh & Hlook & Hsize)%IH. split; [|split].
      * intros [|a] p0 s0 Hrec0.
        -- rewrite record_at_0, Hrec in Hrec0. injection Hrec0 as <- <-.
           split; [done|]. intros; lia.
        -- rewrite record_at_S in Hrec0.
           destruct (Hfresh a p0 s0 Hrec0) as [Hnone Hb].
           assert (p <> p0) as Hne by (intros ->; by rewrite lookup_insert_eq in Hnone).
           rewrite lookup_insert_ne in Hnone by done. split; [done|].
           intros [|b] s' Hlt.
           ++ rewrite record_at_0, Hrec. congruence.
           ++ rewrite record_at_S. apply Hb. lia.
      * intros p0 s0. rewrite Hlook. split.
        -- intros [Hins|[a Ha]].
           ++ destruct (decide (p = p0)) as [<-|Hne].
              ** rewrite lookup_insert_eq in Hins. injection Hins as <-.
                 right. by exists 0%nat.
              ** rewrite lookup_insert_ne in Hins by done. by left.
           ++ right. by exists (S a).
        -- intros [Hr|[[|a] Ha]].
           ++ left. rewrite lookup_insert_ne; [done|]. congruence.
           ++ rewrite record_at_0, Hrec in Ha. injection Ha as <- <-.
              left. apply lookup_insert_eq.
           ++ right. by exists a.
      * rewrite Hsize, map_size_insert_None by done. simpl. lia.
    + intros (Hfresh & Hlook & Hsize)%IH. split; [|split; [|done]].
      * intros [|a] p0 s0 Hrec0.
        -- by rewrite record_at_0, Hrec in Hrec0.
        -- rewrite record_at_S in Hrec0.
           destruct (Hfresh a p0 s0 Hrec0) as [Hnone Hb]. split; [done|].
           intros [|b] s' Hlt.
           ++ by rewrite record_at_0, Hrec.
           ++ rewrite record_at_S. apply Hb. lia.
      * intros p0 s0. rewrite Hlook. split.
        -- intros [?|[a Ha]]; [by left|]. right. by exists (S a).
        -- intros [?|[[|a] Ha]]; [by left| |right; by exists a].
           by rewrite record_at_0, Hrec in Ha.
Qed.

(** ** [NewRouter]: what a load returns *)

Lemma record_of_Some (line p : string) (src : Source) :
  record_of line = Some (p, src) <->
  is_comment line = false /\ strings.Fields line = [p; Vcs src; Url src].
Proof.
  unfold record_of, is_comment. destruct (strings.HasPrefix line "#").
  - split; [done|]. by intros [? _].
  - destruct src as [v u]. simpl.
    destruct (strings.Fields line) as [|f0 [|f1 [|f2 [|f3 fs]]]];
      (split; [intros [=]|intros [_ [=]]]); by subst.
Qed.

Lemma record_at_Some (text : list string) (a : nat) (p : string) (src : Source) :
  record_at text a = Some (p, src) <->
  exists line, text !! a = Some line /\ is_comment line = false /\
    strings.Fields line = [p; Vcs src; Url src].
Proof.
  unfold record_at. destruct (text !! a) as [line|]; simpl.
  - rewrite record_of_Some. split; [by exists line|]. by intros (? & [= <-] & ?).
  - split; [done|]. by intros (? & [=] & _).
Qed.

Lemma record_of_malformed (line : string) :
  record_of (if malformed line then "" else line) = record_of line.
Proof.
  destruct (malformed line) eqn:Hbad; [|done].
  unfold malformed, well_formed_line, is_comment, is_blank in Hbad.
  unfold record_of. destruct (strings.HasPrefix line "#"); [done|].
  by destruct (strings.Fields line) as [|f0 [|f1 [|f2 [|f3 fs]]]].
Qed.

Lemma scan_loop_blank_malformed (filename : string) (text : list string) (n : Z) (r : Router) :
  scan_loop filename ((fun line => if malformed line then "" else line) <$> text) n r =
  scan_loop filename text n r.
Proof.
  revert n r. induction text as [|line rest IH]; intros n r; [done|].
  rewrite fmap_cons, !scan_loop_cons, record_of_malformed.
  destruct (record_of line) as [[p src]|]; [|done].
  by destruct (r !! p).
Qed.

Lemma scan_loop_NoDup (filename : string) (text : list string) (n : Z) (r : Router) :
  NoDup (records text).*1 ->
  (forall p, p ∈ (records text).*1 -> r !! p = None) ->
  exists r', scan_loop filename text n r = inr r'.
Proof.
  revert n r. induction text as [|line rest IH]; intros n r Hnd Hfresh; [by eexists|].
  rewrite scan_loop_cons. unfold records in *. cbn [omap list_omap] in *.
  destruct (record_of line) as [[p src]|]; [|by apply IH].
  rewrite fmap_cons in Hnd, Hfresh. simpl in Hnd, Hfresh.
  apply NoDup_cons in Hnd as [Hp Hnd].
  rewrite Hfresh by apply list_elem_of_here. apply IH; [done|].
  intros q Hq. rewrite lookup_insert_ne by (intros ->; done).
  apply Hfresh. by apply list_elem_of_further.
Qed.




(** What a load that opened the file returns, by the outcome of the loop. *)
Lemma NewRouter_opened (fs : FS) (filename : string) (file : File) :
  fs filename = inr file ->
  NewRouter fs filename =
    match scan_loop filename (Text file) 0 ∅ with
    | inl e => (None, Some e)
    | inr r => (Some r, Err file)
    end.
Proof. intros Hopen. unfold NewRouter. by rewrite Hopen. Qed.

(** Against C2: the first line of [short_file] is no comment and has two
    fields, and the load succeeds, with the record of the second line
    alone. *)
Lemma NewRouter_malformed_no_error :
  is_comment "/net git" = false /\
  length (strings.Fields "/net git") = 2%nat /\
  NewRouter short_fs "config" =
    (Some {["/www" := {| Vcs := "hg"; Url := "https://example.org/www" |}]}, None).
Proof. repeat split; reflexivity. Qed.

(** C2, amended. A line that is no comment and whose number of fields is
    neither 0 nor 3 is passed over without an error: a load returns what it
    returns on the file with every such line replaced by an empty line, and
    the only error that names a line is the one for a repeated prefix, on a
    line of three fields. *)
Theorem NewRouter_skips_malformed (fs : FS) (filename : string) :
  NewRouter fs filename = NewRouter (blank_malformed_fs fs) filename /\
  forall r e, NewRouter fs filename = (r, Some e) ->
    fs filename = inl e \/
    exists file, fs filename = inr file /\
      (Err file = Some e \/
       exists m q src, record_at (Text file) m = Some (q, src) /\
         e = DuplicateEntry filename (int_wrap (Z.of_nat m + 1)) q).
Proof.
  split.
  - unfold NewRouter, blank_malformed_fs.
    destruct (fs filename) as [err|file]; [done|].
    cbn [blank_malformed Text Err]. by rewrite scan_loop_blank_malformed.
  - intros r e. unfold NewRouter.
    destruct (fs filename) as [err|file]; [intros [= _ <-]; by left|].
    intros Hres. right. exists file. split; [done|].
    destruct (scan_loop filename (Text file) 0 ∅) as [e'|r'] eqn:Hloop.
    + injection Hres as _ <-. right.
      apply scan_loop_inl in Hloop as (m & q & src & Hm & -> & _).
      by exists m, q, src.
    + injection Hres as _ ->. by left.
Qed.

(** C5. When two lines of the file are records with the same prefix, the
    load fails with the error for a duplicate entry. The error names the
    file, the prefix [q] of the first line [m] that repeats the prefix of an
    earlier record, and that line's number, counted from 1; no two records
    before line [m] share a prefix. So [m] is the second of the two lines
    when no prefix is repeated before it. *)
Theorem NewRouter_duplicate (fs : FS) (filename : string) (file : File)
    (i j : nat) (p : string) (si sj : Source) :
  fs filename = inr file ->
  (i < j)%nat ->
  record_at (Text file) i = Some (p, si) ->
  record_at (Text file) j = Some (p, sj) ->
  exists m q src,
    NewRouter fs filename =
      (None, Some (DuplicateEntry filename (int_wrap (Z.of_nat m + 1)) q)) /\
    (Z.of_nat m + 1 < 2 ^ 63 -> int_wrap (Z.of_nat m + 1) = Z.of_nat m + 1) /\
    (m <= j)%nat /\
    record_at (Text file) m = Some (q, src) /\
    (exists m' src', (m' < m)%nat /\ record_at (Text file) m' = Some (q, src')) /\
    (forall a b pa sa sb, (a < b < m)%nat ->
       record_at (Text file) a = Some (pa, sa) ->
       record_at (Text file) b <> Some (pa, sb)) /\
    ((forall a b pa sa sb, (a < b < j)%nat ->
        record_at (Text file) a = Some (pa, sa) ->
        record_at (Text file) b <> Some (pa, sb)) ->
     m = j /\ q = p).
Proof.
  intros Hopen Hij Hi Hj. rewrite (NewRouter_opened _ _ _ Hopen).
  destruct (scan_loop filename (Text file) 0 ∅) as [e|r] eqn:Hloop.
  - apply scan_loop_inl in Hloop as (m & q & src & Hm & -> & Hdup & Hfirst).
    destruct Hdup as [[? Hq]|(m' & src' & Hm' & Hq)]; [by rewrite lookup_empty in Hq|].
    assert (forall a b pa sa sb, (a < b < m)%nat ->
       record_at (Text file) a = Some (pa, sa) ->
       record_at (Text file) b <> Some (pa, sb)) as Hnodup.
    { intros a b pa sa sb Hab Ha Hb.
      destruct (Hfirst b pa sb ltac:(lia) Hb) as [_ Hearlier].
      by apply (Hearlier a sa ltac:(lia)). }
    assert (m <= j)%nat as Hmj.
    { destruct (decide (m <= j)%nat) as [|Hgt]; [done|].
      destruct (Hnodup i j p si sj ltac:(lia) Hi Hj). }
    exists m, q, src. split; [do 3 f_equal; lia|].
    split; [intros; apply int_wrap_small; lia|].
    split; [done|]. split; [done|]. split; [by exists m', src'|].
    split; [done|]. intros Hbefore.
    destruct (decide (m = j)) as [->|Hne]; [split; congruence|].
    destruct (Hbefore m' m q src' src ltac:(lia) Hq Hm).
  - apply scan_loop_inr in Hloop as (Hfresh & _).
    destruct (Hfresh j p sj Hj) as [_ Hearlier].
    destruct (Hearlier i si Hij Hi).
Qed.

Lemma NewRouter_duplicate_witness :
  NewRouter duplicate_fs "config" =
    (None, Some (DuplicateEntry "config" 3 "/www")).
Proof.
  destruct (NewRouter_duplicate duplicate_fs "config" duplicate_file 1 2 "/www"
              {| Vcs := "hg"; Url := "https://example.org/www" |}
              {| Vcs := "git"; Url := "https://example.org/www.git" |})
    as (m & q & src & Hres & _ & _ & _ & _ & _ & Hsecond);
    [reflexivity|lia|reflexivity|reflexivity|].
  destruct Hsecond as [-> ->]; [|exact Hres].
  intros [|[|a]] [|[|b]] pa sa sb Hab; try lia. discriminate.
Defined.

Example Error_duplicate :
  Error (DuplicateEntry "config" 3 "/www") = "config:3: duplicate entry /www".
Proof. vm_compute. reflexivity. Qed.

(** C8. A load returns without error only when the file was opened, the
    loop met no repeated prefix and the scanner reached the end of the file
    without error, and then the map holds the records of all the lines.
    When the file does not open, when the loop stops at a repeated prefix or
    when the scanner ends with an error, the load returns that error: with
    the nil map in the first two cases, and in the third with the map of the
    lines read, which no caller looks at. *)
Theorem NewRouter_all_or_error (fs : FS) (filename : string) :
  (forall e, fs filename = inl e -> NewRouter fs filename = (None, Some e)) /\
  (forall file e, fs filename = inr file ->
     scan_loop filename (Text file) 0 ∅ = inl e ->
     NewRouter fs filename = (None, Some e)) /\
  (forall file t e, fs filename = inr file ->
     scan_loop filename (Text file) 0 ∅ = inr t -> Err file = Some e ->
     NewRouter fs filename = (Some t, Some e)) /\
  (forall r, NewRouter fs filename = (r, None) ->
     exists file t,
       fs filename = inr file /\ Err file = None /\
       scan_loop filename (Text file) 0 ∅ = inr t /\ r = Some t /\
       forall p src, t !! p = Some src <->
         exists a, record_at (Text file) a = Some (p, src)).
Proof.
  split; [|split; [|split]].
  - intros e Hopen. unfold NewRouter. by rewrite Hopen.
  - intros file e Hopen Hloop. by rewrite (NewRouter_opened _ _ _ Hopen), Hloop.
  - intros file t e Hopen Hloop Herr.
    by rewrite (NewRouter_opened _ _ _ Hopen), Hloop, Herr.
  - intros r. unfold NewRouter.
    destruct (fs filename) as [err|file]; [done|].
    destruct (scan_loop filename (Text file) 0 ∅) as [e|t] eqn:Hloop; [done|].
    intros [= <- Herr]. exists file, t. repeat split; try done.
    + apply scan_loop_inr in Hloop as (_ & Hlook & _).
      rewrite Hlook, lookup_empty. by intros [?|?].
    + apply scan_loop_inr in Hloop as (_ & Hlook & _).
      rewrite Hlook. by right.
Qed.

(** The keys of the map a load returns are first fields of lines. *)
Lemma NewRouter_key_field (fs : FS) (filename : string) (r : Router) err (p : string) :
  NewRouter fs filename = (Some r, err) -> is_Some (r !! p) ->
  exists line, p ∈ strings.Fields line.
Proof.
  unfold NewRouter. destruct (fs filename) as [e|file]; [done|].
  destruct (scan_loop filename (Text file) 0 ∅) as [e|t] eqn:Hloop; [done|].
  intros [= <- _] [src Hp].
  apply scan_loop_inr in Hloop as (_ & Hlook & _).
  apply Hlook in Hp as [Hp|[a Ha]]; [by rewrite lookup_empty in Hp|].
  apply record_at_Some in Ha as (line & _ & _ & Hf).
  exists line. rewrite Hf. apply list_elem_of_here.
Qed.

(** C9. Every key of the map a load returns is a field of a line: it is not
    the empty string and it holds no white space. So the map has no entry
    for the empty string, and [findPath] never answers with the empty
    string as the root. *)
Theorem NewRouter_keys_nonempty (fs : FS) (filename : string) (r : Router) err :
  NewRouter fs filename = (Some r, err) ->
  (forall p, is_Some (r !! p) -> p <> "" /\ strings.ContainsSpace p = false) /\
  r !! "" = None /\
  forall path src root, findPath r path = Some (src, root) -> root <> "".
Proof.
  intros Hload.
  assert (forall p, is_Some (r !! p) -> p <> "" /\ strings.ContainsSpace p = false)
    as Hkeys.
  { intros p Hp. destruct (NewRouter_key_field _ _ _ _ _ Hload Hp) as [line Hline].
    by apply Fields_elem in Hline. }
  split; [done|]. split.
  - destruct (r !! "") as [src|] eqn:Hempty; [|done].
    by destruct (Hkeys "" ltac:(eauto)).
  - intros path src root Hfind.
    apply findPath_loop_Some in Hfind as (_ & _ & _ & Hroot & _).
    by destruct (Hkeys root ltac:(eauto)).
Qed.

Lemma NewRouter_keys_nonempty_witness :
  exists r : Router,
    NewRouter example_fs "config" = (Some r, None) /\
    r !! "" = None /\ findPath r "/other" = None /\
    findPath r "/net/lldp/internal" =
      Some ({| Vcs := "git"; Url := "https://example.org/net/lldp.git" |}, "/net/lldp").
Proof.
  eexists. split; [reflexivity|].
  split; [|split; reflexivity].
  eapply (NewRouter_keys_nonempty example_fs "config"). reflexivity.
Defined.

(** ** [loadConfig] and [ServeHTTP] *)

(** A load never returns the nil map without an error. *)
Lemma NewRouter_no_error (fs : FS) (filename : string) (r : option Router) :
  NewRouter fs filename = (r, None) -> exists t, r = Some t.
Proof.
  unfold NewRouter. destruct (fs filename) as [e|file]; [done|].
  destruct (scan_loop filename (Text file) 0 ∅) as [e|t]; [done|].
  intros [= <- _]. by exists t.
Qed.




Lemma run_Receive (srv : Server) (r : Router) (n : nat) :
  run srv (Serving r) (replicate n Receive) =
    Some (Serving r, replicate n (Deliver r)).
Proof. induction n as [|n IH]; [done|]. cbn [replicate run step]. by rewrite IH. Qed.

(** C4. When a SIGHUP reaches the goroutine in its [select] and the load
    fails, the goroutine logs the error and is back in the [select] with
    the map it held: it has not returned, and every receive that follows
    yields that map. *)
Theorem reload_failure_keeps_table (srv : Server) (r : Router) (fs : FS) (err : error) :
  (NewRouter fs (config srv)).2 = Some err ->
  run srv (Serving r) [Sighup; Loaded fs] = Some (Serving r, [Silent; Log err]) /\
  current srv (Serving r) = Some r /\
  forall n, run srv (Serving r) (Sighup :: Loaded fs :: replicate n Receive) =
    Some (Serving r, Silent :: Log err :: replicate n (Deliver r)).
Proof.
  intros Hfail.
  assert (step srv (Reloading r) (Loaded fs) = Some (Serving r, Log err)) as Hstep.
  { cbn [step]. destruct (NewRouter fs (config srv)) as [nr e]. simpl in Hfail.
    by rewrite Hfail. }
  assert (forall evs, run srv (Serving r) (Sighup :: Loaded fs :: evs) =
            match run srv (Serving r) evs with
            | None => None
            | Some (st, effs) => Some (st, Silent :: Log err :: effs)
            end) as Hrun.
  { intros evs. cbn [run].
    change (step srv (Serving r) Sighup) with (Some (Reloading r, Silent)).
    cbv beta iota. rewrite Hstep. by destruct (run srv (Serving r) evs) as [[??]|]. }
  split; [|split; [done|]].
  - by rewrite Hrun.
  - intros n. by rewrite Hrun, run_Receive.
Qed.

Lemma reload_failure_keeps_table_witness :
  run example_srv (Serving example_table) [Sighup; Loaded missing_fs; Receive; Receive] =
    Some (Serving example_table,
          [Silent; Log (SysError "open config: no such file or directory");
           Deliver example_table; Deliver example_table]).
Proof.
  exact (proj2 (proj2 (reload_failure_keeps_table example_srv example_table
           missing_fs (SysError "open config: no such file or directory")
           eq_refl)) 2%nat).
Defined.

(** C10. A request whose method is not GET is answered with 405 Method Not
    Allowed before anything else: the handler does not receive from
    [s.Routes], so it answers in whatever state [loadConfig] is, and it
    calls neither [findPath] nor [FormValue]. *)
Theorem ServeHTTP_method_not_allowed (r : Request) :
  Method r <> "GET" ->
  ServeHTTP r = Answer (HttpError "Method Not Allowed" 405) /\
  (forall k, ServeHTTP r <> Routes k) /\
  forall srv st, serve srv st r = Some (HttpError "Method Not Allowed" 405).
Proof.
  intros Hmethod.
  assert (ServeHTTP r = Answer (HttpError "Method Not Allowed" 405)) as Hans.
  { unfold ServeHTTP. destruct (String.eqb_spec (Method r) "GET"); done. }
  split; [done|]. split; [by rewrite Hans|].
  intros srv st. unfold serve. by rewrite Hans.
Qed.

Lemma ServeHTTP_method_not_allowed_witness :
  serve example_srv Initializing post_request =
    Some (HttpError "Method Not Allowed" 405).
Proof.
  apply (ServeHTTP_method_not_allowed post_request); discriminate.
Defined.

(** A GET request goes to [s.Routes] first; with the example table the go
    tool gets the page for the root "/net/lldp". *)
Example serve_get :
  serve example_srv (Serving example_table) get_request =
    Some (Page {| match_Source := {| Vcs := "git"; Url := "https://example.org/net/lldp.git" |};
                  match_Host := "example.org"; match_Path := "/net/lldp" |}).
Proof. reflexivity. Qed.

(** ** Runs of [loadConfig] *)

(** A property of the map the goroutine holds and of the maps the loads
    return holds of every map delivered. *)
Lemma run_delivers (srv : Server) (good : Router -> Prop) (evs : list event) :
  (forall fs r, Loaded fs ∈ evs -> NewRouter fs (config srv) = (Some r, None) -> good r) ->
  forall st st' effs,
    (forall r, st = Serving r \/ st = Reloading r -> good r) ->
    run srv st evs = Some (st', effs) ->
    forall r, Deliver r ∈ effs -> good r.
Proof.
  induction evs as [|ev evs IH]; intros Hloads st st' effs Hst.
  - intros [= _ <-] r Hr. by apply elem_of_nil in Hr.
  - cbn [run]. destruct (step srv st ev) as [[st1 eff]|] eqn:Hstep; [|done].
    destruct (run srv st1 evs) as [[st2 effs']|] eqn:Hrun; [|done].
    intros [= _ <-] r Hr.
    assert (forall r, st1 = Serving r \/ st1 = Reloading r -> good r) as Hst1.
    { destruct st as [|r0|r0|e]; destruct ev as [fs| |]; cbn [step] in Hstep;
        try done.
      - destruct (NewRouter fs (config srv)) as [nr [e|]] eqn:Hload.
        + injection Hstep as <- _. by intros ? [?|?].
        + destruct (NewRouter_no_error _ _ _ Hload) as [t ->].
          injection Hstep as <- _. intros r1 [[= <-]|?]; [|done].
          apply (Hloads fs); [apply list_elem_of_here|done].
      - injection Hstep as <- _. intros r1 [?|[= <-]]; [done|]. apply Hst. by left.
      - injection Hstep as <- _. intros r1 [[= <-]|?]; [|done]. apply Hst. by left.
      - destruct (NewRouter fs (config srv)) as [nr [e|]] eqn:Hload.
        + injection Hstep as <- _. intros r1 [[= <-]|?]; [|done]. apply Hst. by right.
        + destruct (NewRouter_no_error _ _ _ Hload) as [t ->].
          injection Hstep as <- _. intros r1 [[= <-]|?]; [|done].
          apply (Hloads fs); [apply list_elem_of_here|done].
      - injection Hstep as <- _. intros r1 [?|[= <-]]; [done|]. apply Hst. by right. }
    apply elem_of_cons in Hr as [<-|Hr].
    + destruct st as [|r0|r0|e]; destruct ev as [fs| |]; cbn [step] in Hstep;
        try done.
      * by destruct (NewRouter fs (config srv)) as [nr [e|]].
      * simplify_eq. apply Hst. by left.
      * by destruct (NewRouter fs (config srv)) as [nr [e|]].
    + eapply (IH ltac:(intros fs r1 Hin; apply Hloads; by apply list_elem_of_further)
                st1 st2 effs' Hst1 Hrun r Hr).
Qed.

(** X1. Whatever happens to [loadConfig] from its start, every map a
    handler receives is the map one of the loads returned without error:
    no handler ever sees a map of a load that failed, or a map under
    construction. *)
Theorem delivered_tables_loaded (srv : Server) (evs : list event)
    (st : supervisor) (effs : list effect) (r : Router) :
  run srv Initializing evs = Some (st, effs) ->
  Deliver r ∈ effs ->
  exists fs, Loaded fs ∈ evs /\ NewRouter fs (config srv) = (Some r, None).
Proof.
  intros Hrun Hr.
  eapply (run_delivers srv
            (fun r => exists fs, Loaded fs ∈ evs /\ NewRouter fs (config srv) = (Some r, None))
            evs); [by eauto| |exact Hrun|exact Hr].
  by intros ? [?|?].
Qed.

Lemma delivered_tables_loaded_witness :
  exists fs, Loaded fs ∈ [Loaded example_fs; Receive] /\
    NewRouter fs (config example_srv) = (Some example_table, None).
Proof.
  apply (delivered_tables_loaded example_srv [Loaded example_fs; Receive]
           (Serving example_table) [Silent; Deliver example_table] example_table).
  - reflexivity.
  - apply list_elem_of_further, list_elem_of_here.
Defined.

(** X2. When a SIGHUP reaches the goroutine in its [select] and the load
    returns without error, the goroutine is back in the [select] with the
    new map, and the next receive yields it. *)
Theorem reload_success_swaps_table (srv : Server) (r r' : Router) (fs : FS) :
  NewRouter fs (config srv) = (Some r', None) ->
  run srv (Serving r) [Sighup; Loaded fs; Receive] =
    Some (Serving r', [Silent; Silent; Deliver r']).
Proof.
  intros Hload. cbn [run].
  change (step srv (Serving r) Sighup) with (Some (Reloading r, Silent)).
  cbv beta iota.
  assert (step srv (Reloading r) (Loaded fs) = Some (Serving r', Silent)) as ->.
  { cbn [step]. by rewrite Hload. }
  done.
Qed.

Lemma reload_success_swaps_table_witness :
  run example_srv (Serving ∅) [Sighup; Loaded example_fs; Receive] =
    Some (Serving example_table, [Silent; Silent; Deliver example_table]).
Proof.
  apply (reload_success_swaps_table example_srv ∅ example_table example_fs).
  reflexivity.
Defined.

(** X3. When the first load fails, [loadConfig] returns the error, which
    [main] hands to [log.Fatal]: nothing is ever published, and no receive
    takes place. *)
Theorem initial_load_failure_fatal (srv : Server) (fs : FS) (err : error) :
  (NewRouter fs (config srv)).2 = Some err ->
  step srv Initializing (Loaded fs) = Some (Exited err, Silent) /\
  current srv Initializing = None /\
  current srv (Exited err) = None /\
  forall ev, step srv (Exited err) ev = None.
Proof.
  intros Hfail. repeat split; try done.
  cbn [step]. destruct (NewRouter fs (config srv)) as [nr e]. simpl in Hfail.
  by rewrite Hfail.
Qed.

Lemma initial_load_failure_fatal_witness :
  step example_srv Initializing (Loaded missing_fs) =
    Some (Exited (SysError "open config: no such file or directory"), Silent).
Proof.
  apply (initial_load_failure_fatal example_srv missing_fs
           (SysError "open config: no such file or directory")).
  reflexivity.
Defined.

(** * Further properties of the code *)

(** ** [findPath]: exact matches, intermediate paths, unrelated entries *)

Lemma findPath_Some_inv (r : Router) (path : string) src root :
  findPath r path = Some (src, root) ->
  r !! root = Some src /\ segment_ancestor root path /\
  forall prefix, is_Some (r !! prefix) -> segment_ancestor prefix path ->
    (String.length prefix <= String.length root)%nat.
Proof.
  intros (j & Hj & -> & Hsrc & Hlater)%findPath_loop_Some.
  split; [done|]. split; [by apply candidate_ancestor|].
  intros prefix [src' Hp] (j' & Hj' & ->)%ancestor_candidate.
  destruct (decide (j' <= j)%nat); [apply candidate_length_mono; lia|].
  rewrite Hlater in Hp by lia. done.
Qed.

Lemma findPath_None_inv (r : Router) (path prefix : string) :
  findPath r path = None -> segment_ancestor prefix path -> r !! prefix = None.
Proof.
  intros Hnone (j & Hj & ->)%ancestor_candidate.
  by apply (findPath_loop_None r path _ Hnone).
Qed.

Lemma segment_ancestor_app (prefix path : string) :
  segment_ancestor prefix path -> exists t, path = prefix +:+ t.
Proof.
  intros [->|[rest ->]]; [exists ""; by rewrite app_empty_r|by eexists].
Qed.

Lemma segment_ancestor_trans (a b c : string) :
  segment_ancestor a b -> segment_ancestor b c -> segment_ancestor a c.
Proof.
  intros [->|[r1 ->]] Hbc; [done|].
  destruct Hbc as [<-|[r2 ->]]; [right; by eexists|].
  right. exists (r1 +:+ "/" +:+ r2). by rewrite !app_assoc_s.
Qed.

Lemma app_same_length (a b t u : string) :
  a +:+ t = b +:+ u -> String.length a = String.length b -> a = b.
Proof.
  revert b. induction a as [|c a IH]; intros [|d b]; try done.
  rewrite !app_cons. intros [= -> Hrest] [= Hlen]. f_equal. by apply IH.
Qed.

(** Two ancestors of a path that are as long as each other are the same. *)
Lemma segment_ancestor_same_length (a b path : string) :
  segment_ancestor a path -> segment_ancestor b path ->
  String.length a = String.length b -> a = b.
Proof.
  intros [t Ht]%segment_ancestor_app [u Hu]%segment_ancestor_app.
  rewrite Ht in Hu. by apply (app_same_length a b t u).
Qed.

Lemma findPath_here (r : Router) (path : string) (src : Source) :
  r !! path = Some src -> findPath r path = Some (src, path).
Proof.
  intros Hsrc. unfold findPath. cbv zeta.
  pose proof (Split_length_pos "/" path) as Hpos.
  destruct (length (strings.Split path "/")) as [|k] eqn:Hlen; [lia|].
  cbn [findPath_loop]. fold (candidate path (S k)).
  by rewrite <- Hlen, candidate_full, Hsrc.
Qed.

(** X4. A path that is itself a key of the table resolves to itself, with
    its own [Source], whatever shorter prefixes are registered. *)
Theorem findPath_exact (r : Router) (path : string) (src : Source) :
  r !! path = Some src -> findPath r path = Some (src, path).
Proof. apply findPath_here. Qed.

Lemma findPath_exact_witness :
  findPath example_table "/net/lldp" =
    Some ({| Vcs := "git"; Url := "https://example.org/net/lldp.git" |}, "/net/lldp").
Proof. apply (findPath_exact example_table "/net/lldp"). reflexivity. Defined.

(** X5. When a path resolves to a root, so does every path between the
    root and it: the root itself, and every ancestor of the path below the
    root, resolve to the same root and [Source]. *)
Theorem findPath_between (r : Router) (path path' : string) src root :
  findPath r path = Some (src, root) ->
  segment_ancestor root path' -> segment_ancestor path' path ->
  findPath r path' = Some (src, root).
Proof.
  intros (Hsrc & Hroot & Hlongest)%findPath_Some_inv Hlow Hhigh.
  destruct (findPath r path') as [[src' root']|] eqn:Hfind.
  - apply findPath_Some_inv in Hfind as (Hsrc' & Hroot' & Hlongest').
    assert (root' = root) as ->.
    { apply (segment_ancestor_same_length _ _ path');
        [done|done|]. apply Nat.le_antisymm.
      - apply Hlongest; [by eexists|]. by eapply segment_ancestor_trans.
      - apply Hlongest'; [by eexists|done]. }
    congruence.
  - by rewrite (findPath_None_inv _ _ _ Hfind Hlow) in Hsrc.
Qed.

Lemma findPath_between_witness :
  findPath example_table "/net/lldp/internal" =
    Some ({| Vcs := "git"; Url := "https://example.org/net/lldp.git" |}, "/net/lldp").
Proof.
  apply (findPath_between example_table "/net/lldp/internal/x/y"
           "/net/lldp/internal").
  - reflexivity.
  - right. by exists "internal".
  - right. by exists "x/y".
Defined.

Lemma findPath_loop_ext (r r' : Router) (nodes : list string) (k : nat) :
  (forall j, (1 <= j <= k)%nat ->
     r !! strings.Join (take j nodes) "/" = r' !! strings.Join (take j nodes) "/") ->
  findPath_loop r nodes k = findPath_loop r' nodes k.
Proof.
  induction k as [|k IH]; intros Hsame; [done|]. cbn [findPath_loop].
  rewrite (Hsame (S k)) by lia. rewrite IH; [done|]. intros j Hj. apply Hsame. lia.
Qed.

(** Two tables that agree on the ancestors of a path resolve it alike. *)
Lemma findPath_ext (r r' : Router) (path : string) :
  (forall prefix, segment_ancestor prefix path -> r !! prefix = r' !! prefix) ->
  findPath r path = findPath r' path.
Proof.
  intros Hsame. unfold findPath. cbv zeta. apply findPath_loop_ext.
  intros j Hj. apply Hsame. by apply candidate_ancestor.
Qed.

(** X6. Entries whose key is no ancestor of a path do not matter to it:
    adding, replacing or deleting such an entry changes nothing in what the
    path resolves to. *)
Theorem findPath_unrelated (r : Router) (path key : string) (src : Source) :
  ~ segment_ancestor key path ->
  findPath (<[key := src]> r) path = findPath r path /\
  findPath (delete key r) path = findPath r path.
Proof.
  intros Hkey. split; apply findPath_ext; intros prefix Hprefix.
  - apply lookup_insert_ne. by intros ->.
  - apply lookup_delete_ne. by intros ->.
Qed.

Lemma findPath_unrelated_witness :
  findPath (<["/net" := {| Vcs := "git"; Url := "u" |}]> example_table) "/network" =
    findPath example_table "/network".
Proof.
  refine (proj1 (findPath_unrelated example_table "/network" "/net" _ _)).
  unfold segment_ancestor. intros [Heq|[rest Heq]]; discriminate.
Defined.

Lemma findPath_loop_app (r : Router) (nodes extra : list string) (k : nat) :
  (k <= length nodes)%nat ->
  findPath_loop r (nodes ++ extra) k = findPath_loop r nodes k.
Proof.
  induction k as [|k IH]; intros Hk; [done|]. cbn [findPath_loop].
  rewrite take_app_le by done. rewrite IH by lia. done.
Qed.

(** X7. A slash at the end of a path is passed over: unless the path with
    the slash is itself a key, it resolves as the path without it. *)
Theorem findPath_trailing_slash (r : Router) (path : string) :
  r !! (path +:+ "/") = None ->
  findPath r (path +:+ "/") = findPath r path.
Proof.
  intros Hnone. unfold findPath. cbv zeta.
  change (path +:+ "/") with (path +:+ String "/" "").
  rewrite Split_app. change (strings.Split "" "/") with [""].
  rewrite length_app, Nat.add_1_r. cbn [findPath_loop].
  assert (strings.Join (take (S (length (strings.Split path "/")))
                          (strings.Split path "/" ++ [""])) "/" = path +:+ "/") as ->.
  { rewrite take_ge by (rewrite length_app; simpl; lia).
    rewrite Join_app; [|apply Split_not_nil|done]. by rewrite Join_Split. }
  rewrite Hnone. by apply findPath_loop_app.
Qed.

Lemma findPath_trailing_slash_witness :
  findPath example_table "/www/" = findPath example_table "/www".
Proof. apply (findPath_trailing_slash example_table "/www"). reflexivity. Defined.

(** ** [NewRouter]: the values, the order of the lines, the parts of a file *)

(** The loop ends without error exactly when the prefixes of the records
    are all different and none is a key of the map it starts from. *)
Lemma scan_loop_inr_NoDup (filename : string) (text : list string) (n : Z) (r r' : Router) :
  scan_loop filename text n r = inr r' ->
  NoDup (records text).*1 /\ forall p, p ∈ (records text).*1 -> r !! p = None.
Proof.
  revert n r. induction text as [|line rest IH]; intros n r.
  - intros _. split; [constructor|]. by intros p ?%elem_of_nil.
  - rewrite scan_loop_cons. unfold records in *. cbn [omap list_omap].
    destruct (record_of line) as [[p src]|]; [|apply IH].
    destruct (r !! p) as [old|] eqn:Hp; [done|].
    intros [Hnd Hfresh]%IH. rewrite fmap_cons. simpl. split.
    + apply NoDup_cons. split; [|done]. intros Hin%Hfresh.
      by rewrite lookup_insert_eq in Hin.
    + intros q [->|Hq]%elem_of_cons; [done|].
      apply Hfresh in Hq. destruct (decide (p = q)) as [->|Hne].
      * by rewrite lookup_insert_eq in Hq.
      * by rewrite lookup_insert_ne in Hq.
Qed.

Lemma record_at_records (text : list string) (p : string) (src : Source) :
  (exists a, record_at text a = Some (p, src)) <-> (p, src) ∈ records text.
Proof.
  unfold records. rewrite list_elem_of_omap. split.
  - intros [a Ha]. unfold record_at in Ha.
    destruct (text !! a) as [line|] eqn:Hline; [|done].
    exists line. split; [|done]. apply list_elem_of_lookup. by exists a.
  - intros (line & [a Ha]%list_elem_of_lookup & Hrec). exists a.
    unfold record_at. by rewrite Ha.
Qed.

(** The map of a load without early return, by its entries. *)
Lemma scan_loop_inr_elem (filename : string) (text : list string) (n : Z) (t : Router)
    (p : string) (src : Source) :
  scan_loop filename text n ∅ = inr t ->
  t !! p = Some src <-> (p, src) ∈ records text.
Proof.
  intros (_ & Hlook & _)%scan_loop_inr.
  rewrite Hlook, lookup_empty, <- record_at_records. split; [by intros [?|?]|by right].
Qed.

(** X8. A load goes through exactly when the prefixes of the records of
    the file are all different; otherwise it returns the nil map and an
    error. The records are the lines that are no comments and have three
    fields. *)
Theorem NewRouter_loads_iff_distinct (fs : FS) (filename : string) (file : File) :
  fs filename = inr file ->
  (NoDup (records (Text file)).*1 <->
   exists t, NewRouter fs filename = (Some t, Err file)) /\
  (~ NoDup (records (Text file)).*1 <->
   exists e, NewRouter fs filename = (None, Some e)).
Proof.
  intros Hopen. rewrite (NewRouter_opened _ _ _ Hopen).
  destruct (scan_loop filename (Text file) 0 ∅) as [e|t] eqn:Hloop.
  - assert (~ NoDup (records (Text file)).*1) as Hdup.
    { intros Hnd.
      destruct (scan_loop_NoDup filename (Text file) 0 ∅ Hnd) as [t Ht]; [done|].
      congruence. }
    split; split; try done.
    + by intros [t [=]].
    + intros _. by exists e.
  - apply scan_loop_inr_NoDup in Hloop as [Hnd _].
    split; split; try done.
    + intros _. by exists t.
    + by intros [e [=]].
Qed.

Lemma NewRouter_loads_iff_distinct_witness :
  exists e, NewRouter duplicate_fs "config" = (None, Some e).
Proof.
  apply (NewRouter_loads_iff_distinct duplicate_fs "config" duplicate_file eq_refl).
  intros Hnd. apply (bool_decide_pack _) in Hnd. vm_compute in Hnd. exact Hnd.
Defined.

(** The entries of the map a load returns are records of lines. *)
Lemma NewRouter_entry_record (fs : FS) (filename : string) (t : Router) err
    (p : string) (src : Source) :
  NewRouter fs filename = (Some t, err) -> t !! p = Some src ->
  exists file, fs filename = inr file /\ (p, src) ∈ records (Text file).
Proof.
  unfold NewRouter. destruct (fs filename) as [e|file]; [done|].
  destruct (scan_loop filename (Text file) 0 ∅) as [e|t'] eqn:Hloop; [done|].
  intros [= <- _] Hp. exists file. split; [done|].
  by apply (scan_loop_inr_elem _ _ _ _ _ _ Hloop).
Qed.

Lemma records_fields (text : list string) (p : string) (src : Source) :
  (p, src) ∈ records text ->
  exists line, line ∈ text /\ is_comment line = false /\
    strings.Fields line = [p; Vcs src; Url src].
Proof.
  unfold records. intros (line & Hin & Hrec)%list_elem_of_omap.
  apply record_of_Some in Hrec. by exists line.
Qed.

(** X9. In every entry of the map a load returns, the [Vcs] and the [Url]
    are fields of the line of the entry: neither is empty, neither holds
    white space. *)
Theorem NewRouter_values_fields (fs : FS) (filename : string) (t : Router) err
    (p : string) (src : Source) :
  NewRouter fs filename = (Some t, err) -> t !! p = Some src ->
  (Vcs src <> "" /\ strings.ContainsSpace (Vcs src) = false) /\
  (Url src <> "" /\ strings.ContainsSpace (Url src) = false).
Proof.
  intros Hload Hp.
  destruct (NewRouter_entry_record _ _ _ _ _ _ Hload Hp) as (file & _ & Hrec).
  apply records_fields in Hrec as (line & _ & _ & Hf).
  split; apply (Fields_elem line); rewrite Hf; set_solver.
Qed.

Lemma NewRouter_values_fields_witness :
  ("git" <> "" /\ strings.ContainsSpace "git" = false) /\
  ("https://example.org/net/lldp.git" <> "" /\
   strings.ContainsSpace "https://example.org/net/lldp.git" = false).
Proof.
  apply (NewRouter_values_fields example_fs "config" example_table None "/net/lldp"
           {| Vcs := "git"; Url := "https://example.org/net/lldp.git" |});
    reflexivity.
Defined.

(** X10. The map a load returns does not depend on the order of the lines:
    two files with the same lines in any order give the same map, or both
    give the nil map. *)
Theorem NewRouter_permutation (fs fs' : FS) (filename filename' : string)
    (file file' : File) :
  fs filename = inr file -> fs' filename' = inr file' ->
  Text file ≡ₚ Text file' ->
  (NewRouter fs filename).1 = (NewRouter fs' filename').1.
Proof.
  intros Hopen Hopen' Hperm.
  rewrite (NewRouter_opened _ _ _ Hopen), (NewRouter_opened _ _ _ Hopen').
  assert (records (Text file) ≡ₚ records (Text file')) as Hrecs.
  { unfold records. by rewrite Hperm. }
  destruct (scan_loop filename (Text file) 0 ∅) as [e|t] eqn:Hloop;
    destruct (scan_loop filename' (Text file') 0 ∅) as [e'|t'] eqn:Hloop';
    simpl; [done| | |].
  - apply scan_loop_inr_NoDup in Hloop' as [Hnd _]. rewrite <- Hrecs in Hnd.
    destruct (scan_loop_NoDup filename (Text file) 0 ∅ Hnd) as [t Ht]; [done|].
    congruence.
  - apply scan_loop_inr_NoDup in Hloop as [Hnd _]. rewrite Hrecs in Hnd.
    destruct (scan_loop_NoDup filename' (Text file') 0 ∅ Hnd) as [t' Ht']; [done|].
    congruence.
  - f_equal. apply map_eq. intros p. apply option_eq. intros src.
    rewrite (scan_loop_inr_elem _ _ _ _ _ _ Hloop).
    rewrite (scan_loop_inr_elem _ _ _ _ _ _ Hloop'). by rewrite Hrecs.
Qed.

Lemma NewRouter_permutation_witness :
  (NewRouter example_fs "config").1 = (NewRouter reversed_fs "other").1.
Proof.
  apply (NewRouter_permutation example_fs reversed_fs "config" "other"
           example_file reversed_file eq_refl eq_refl).
  apply (bool_decide_unpack _). vm_compute. exact I.
Defined.

Lemma records_length_le (text : list string) :
  (length (records text) <= length text)%nat.
Proof.
  unfold records. induction text as [|line rest IH]; [done|].
  cbn [omap list_omap]. destruct (record_of line); simpl; lia.
Qed.

(** X11. The map a load returns is the map of the list of the records of
    the file: its entries, taken as a list, are the records in some order,
    and it has as many entries as the file has records. *)
Theorem NewRouter_table_records (fs : FS) (filename : string) (file : File)
    (t : Router) err :
  fs filename = inr file -> NewRouter fs filename = (Some t, err) ->
  t = list_to_map (records (Text file)) /\
  map_to_list t ≡ₚ records (Text file) /\
  size t = length (records (Text file)) /\
  (size t <= length (Text file))%nat.
Proof.
  intros Hopen. rewrite (NewRouter_opened _ _ _ Hopen).
  destruct (scan_loop filename (Text file) 0 ∅) as [e|t'] eqn:Hloop; [done|].
  intros [= <- _].
  pose proof (scan_loop_inr_NoDup _ _ _ _ _ Hloop) as [Hnd _].
  assert (t' = list_to_map (records (Text file))) as Heq.
  { apply map_eq. intros p. apply option_eq. intros src.
    rewrite (scan_loop_inr_elem _ _ _ _ _ _ Hloop).
    by rewrite <- elem_of_list_to_map. }
  split; [done|]. rewrite Heq. split; [by apply map_to_list_to_map|].
  rewrite map_size_list_to_map by done. split; [done|].
  apply records_length_le.
Qed.

Lemma NewRouter_table_records_witness :
  example_table = list_to_map (records (Text example_file)) /\
  map_to_list example_table ≡ₚ records (Text example_file) /\
  size example_table = length (records (Text example_file)) /\
  (size example_table <= length (Text example_file))%nat.
Proof.
  apply (NewRouter_table_records example_fs "config" example_file example_table None);
    reflexivity.
Defined.

Lemma scan_loop_wrap (filename : string) (text : list string) (n : Z) (r : Router) :
  scan_loop filename text (int_wrap n) r = scan_loop filename text n r.
Proof. destruct text as [|line rest]; [done|]. by rewrite !scan_loop_cons, int_wrap_plus. Qed.

(** The loop over a file in two parts: the second part goes on from the
    counter and the map the first part ends with, unless the first part
    returns early. *)
Lemma scan_loop_app (filename : string) (text more : list string) (n : Z) (r : Router) :
  scan_loop filename (text ++ more) n r =
    match scan_loop filename text n r with
    | inl e => inl e
    | inr r' => scan_loop filename more (n + Z.of_nat (length text)) r'
    end.
Proof.
  revert n r. induction text as [|line rest IH]; intros n r.
  - simpl. by rewrite Z.add_0_r.
  - rewrite <- app_comm_cons, !scan_loop_cons.
    assert (forall r0, scan_loop filename more (n + Z.of_nat (length (line :: rest))) r0 =
              scan_loop filename more (int_wrap (n + 1) + Z.of_nat (length rest)) r0)
      as Hcount.
    { intros r0. rewrite <- (scan_loop_wrap _ _ (int_wrap (n + 1) + _)), int_wrap_plus.
      rewrite scan_loop_wrap. f_equal. simpl length. lia. }
    destruct (record_of line) as [[p src]|].
    + destruct (r !! p); [done|]. rewrite IH.
      destruct (scan_loop filename rest _ _); [done|]. by rewrite Hcount.
    + rewrite IH. destruct (scan_loop filename rest _ _); [done|]. by rewrite Hcount.
Qed.

(** X12. A load stops at the first repeated prefix and never looks at the
    lines after it: when a file fails to load with a duplicate entry, every
    file that goes on after its lines fails with the same error; and when a
    file loads, the file cut after any line loads too, with a part of the
    map. *)
Theorem NewRouter_more_lines (fs fs' : FS) (filename : string) (file file' : File)
    (more : list string) :
  fs filename = inr file -> fs' filename = inr file' ->
  Text file' = Text file ++ more ->
  (forall e, NewRouter fs filename = (None, Some e) ->
     NewRouter fs' filename = (None, Some e)) /\
  (forall t', NewRouter fs' filename = (Some t', Err file') ->
     exists t, NewRouter fs filename = (Some t, Err file) /\ t ⊆ t').
Proof.
  intros Hopen Hopen' Htext.
  rewrite (NewRouter_opened _ _ _ Hopen), (NewRouter_opened _ _ _ Hopen').
  rewrite Htext, scan_loop_app.
  destruct (scan_loop filename (Text file) 0 ∅) as [e|t] eqn:Hloop.
  - split; [done|]. by intros t' [=].
  - split; [by intros e [=]|]. intros t'.
    destruct (scan_loop filename more _ t) as [e|t''] eqn:Hmore; [done|].
    intros [= <-]. exists t. split; [done|].
    apply scan_loop_inr in Hmore as (_ & Hlook & _).
    apply map_subseteq_spec. intros p src Hp. apply Hlook. by left.
Qed.

Lemma NewRouter_more_lines_witness :
  NewRouter longer_fs "config" = (None, Some (DuplicateEntry "config" 3 "/www")).
Proof.
  apply (NewRouter_more_lines duplicate_fs longer_fs "config" duplicate_file
           longer_file ["/net/lldp git https://example.org/net/lldp.git"]
           eq_refl eq_refl eq_refl).
  reflexivity.
Defined.

(** X13. The only error of a load that opened the file and returns the nil
    map is the duplicate entry: it names the file, a line from the second
    to the last, and the prefix of the record of that line, which is also
    the prefix of the record of an earlier line. *)
Theorem NewRouter_error_is_duplicate (fs : FS) (filename : string) (file : File)
    (e : error) :
  fs filename = inr file -> NewRouter fs filename = (None, Some e) ->
  exists m q src src' m',
    e = DuplicateEntry filename (int_wrap (Z.of_nat m + 1)) q /\
    (m' < m < length (Text file))%nat /\
    record_at (Text file) m = Some (q, src) /\
    record_at (Text file) m' = Some (q, src').
Proof.
  intros Hopen. rewrite (NewRouter_opened _ _ _ Hopen).
  destruct (scan_loop filename (Text file) 0 ∅) as [e'|t] eqn:Hloop; [|done].
  intros [= <-].
  apply scan_loop_inl in Hloop as (m & q & src & Hm & -> & Hdup & _).
  destruct Hdup as [[? Hq]|(m' & src' & Hm' & Hq)]; [by rewrite lookup_empty in Hq|].
  exists m, q, src, src', m'. split; [done|]. split; [|done].
  split; [done|]. unfold record_at in Hm.
  destruct (Text file !! m) as [line|] eqn:Hline; [|done].
  by apply lookup_lt_Some in Hline.
Qed.

Lemma NewRouter_error_is_duplicate_witness :
  exists m q src src' m',
    DuplicateEntry "config" 3 "/www" =
      DuplicateEntry "config" (int_wrap (Z.of_nat m + 1)) q /\
    (m' < m < length (Text duplicate_file))%nat /\
    record_at (Text duplicate_file) m = Some (q, src) /\
    record_at (Text duplicate_file) m' = Some (q, src').
Proof.
  apply (NewRouter_error_is_duplicate duplicate_fs "config" duplicate_file);
    reflexivity.
Defined.

(** ** [loadConfig]: once in the [select] *)

Lemma step_serving (srv : Server) (st : supervisor) (ev : event) st' eff :
  (exists r, st = Serving r \/ st = Reloading r) ->
  step srv st ev = Some (st', eff) ->
  exists r', st' = Serving r' \/ st' = Reloading r'.
Proof.
  intros [r [->| ->]]; destruct ev as [fs| |]; cbn [step]; try done.
  - intros [= <- _]. eauto.
  - intros [= <- _]. eauto.
  - destruct (NewRouter fs (config srv)) as [nr [e|]]; intros [= <- _]; eauto.
  - intros [= <- _]. eauto.
Qed.

(** X14. Once [loadConfig] has reached its [select] it never returns:
    whatever signals arrive and however the reloads end, the goroutine is in
    the [select] or in a reload, holding a map. *)
Theorem loadConfig_never_returns (srv : Server) (r : Router) (evs : list event)
    (st : supervisor) (effs : list effect) :
  run srv (Serving r) evs = Some (st, effs) ->
  exists r', st = Serving r' \/ st = Reloading r'.
Proof.
  assert (forall st0, (exists r0, st0 = Serving r0 \/ st0 = Reloading r0) ->
            forall effs0, run srv st0 evs = Some (st, effs0) ->
            exists r', st = Serving r' \/ st = Reloading r') as Hgen.
  { induction evs as [|ev evs IH]; intros st0 Hst0 effs0.
    - by intros [= <- _].
    - cbn [run]. destruct (step srv st0 ev) as [[st1 eff]|] eqn:Hstep; [|done].
      destruct (run srv st1 evs) as [[st2 effs2]|] eqn:Hrun; [|done].
      intros [= <- _]. eapply IH; [|done]. by eapply step_serving. }
  intros Hrun. eapply Hgen; [|done]. eauto.
Qed.

Lemma loadConfig_never_returns_witness :
  exists r', Serving example_table = Serving r' \/ Serving example_table = Reloading r'.
Proof.
  apply (loadConfig_never_returns example_srv example_table
           [Sighup; Sighup; Loaded missing_fs; Receive]
           (Serving example_table)
           [Silent; Silent; Log (SysError "open config: no such file or directory");
            Deliver example_table]).
  reflexivity.
Defined.

Lemma run_Sighup_Reloading (srv : Server) (r : Router) (n : nat) (evs : list event) :
  run srv (Reloading r) (replicate n Sighup ++ evs) =
    (fun res => (res.1, replicate n Silent ++ res.2)) <$> run srv (Reloading r) evs.
Proof.
  induction n as [|n IH].
  - simpl. by destruct (run srv (Reloading r) evs) as [[??]|].
  - cbn [replicate app run step]. rewrite IH.
    by destruct (run srv (Reloading r) evs) as [[??]|].
Qed.

(** X15. A SIGHUP that arrives while a reload is under way is lost, since
    [sig] has no buffer: any number of them between the SIGHUP that started
    the reload and its end leaves the run as it is without them, one
    reload and no more. *)
Theorem sighup_during_reload_lost (srv : Server) (r : Router) (n : nat)
    (evs : list event) :
  run srv (Serving r) (Sighup :: replicate n Sighup ++ evs) =
    (fun res => (res.1, take 1 res.2 ++ replicate n Silent ++ drop 1 res.2))
      <$> run srv (Serving r) (Sighup :: evs).
Proof.
  cbn [run]. change (step srv (Serving r) Sighup) with (Some (Reloading r, Silent)).
  cbv beta iota. rewrite run_Sighup_Reloading.
  by destruct (run srv (Reloading r) evs) as [[??]|].
Qed.

(** ** [ServeHTTP]: the answers to a request *)

Lemma current_Some (srv : Server) (st : supervisor) (routes : Router) :
  current srv st = Some routes <-> st = Serving routes.
Proof.
  split; [|by intros ->]. unfold current.
  destruct st as [|r0|r0|err]; cbn [step]; try done. by intros [= ->].
Qed.

(** What [serve] gives for a GET request. *)
Lemma serve_GET (srv : Server) (st : supervisor) (r : Request) :
  Method r = "GET" ->
  serve srv st r =
    (fun routes =>
       match findPath routes (URL_Path r) with
       | None => HttpError "Not Found" 404
       | Some (src, root) =>
           if negb (String.eqb (FormValue r "go-get") "1") then
             Redirect ("http://godoc.org/" +:+ Host r +:+ URL_Path r) StatusSeeOther
           else
             Page {| match_Source := src; match_Host := Host r; match_Path := root |}
       end) <$> current srv st.
Proof. intros Hget. unfold serve, ServeHTTP. by rewrite Hget. Qed.

Lemma serve_not_GET (srv : Server) (st : supervisor) (r : Request) :
  Method r <> "GET" -> serve srv st r = Some (HttpError "Method Not Allowed" 405).
Proof.
  intros Hmethod. unfold serve, ServeHTTP.
  by destruct (String.eqb_spec (Method r) "GET").
Qed.

(** X16. A request has to wait exactly when its method is GET and
    [loadConfig] is not in its [select]: during the first load, during a
    reload, and for ever once [loadConfig] has returned. *)
Theorem serve_waits_iff (srv : Server) (st : supervisor) (r : Request) :
  serve srv st r = None <-> Method r = "GET" /\ forall routes, st <> Serving routes.
Proof.
  destruct (decide (Method r = "GET")) as [Hget|Hother].
  - rewrite serve_GET by done. split.
    + intros Hnone. split; [done|]. intros routes ->. done.
    + intros [_ Hst]. destruct (current srv st) as [routes|] eqn:Hcur; [|done].
      apply current_Some in Hcur. by destruct (Hst routes).
  - rewrite serve_not_GET by done. split; [done|]. by intros [? _].
Qed.

(** X17. The page for the go tool is sound: it is written only for a GET
    request with go-get=1 while [loadConfig] is in its [select], its path is
    a key of the table and an ancestor of the path of the request, in
    particular the path of the request starts with it, its [Source] is the
    entry of that key, and its host is the host of the request. *)
Theorem serve_page_sound (srv : Server) (st : supervisor) (r : Request) (m : Match) :
  serve srv st r = Some (Page m) ->
  Method r = "GET" /\ FormValue r "go-get" = "1" /\
  exists routes, st = Serving routes /\
    routes !! match_Path m = Some (match_Source m) /\
    segment_ancestor (match_Path m) (URL_Path r) /\
    strings.HasPrefix (URL_Path r) (match_Path m) = true /\
    match_Host m = Host r.
Proof.
  destruct (decide (Method r = "GET")) as [Hget|Hother];
    [|by rewrite serve_not_GET]. rewrite serve_GET by done.
  destruct (current srv st) as [routes|] eqn:Hcur; [|done].
  apply current_Some in Hcur as ->. simpl.
  destruct (findPath routes (URL_Path r)) as [[src root]|] eqn:Hfind; [|done].
  destruct (String.eqb_spec (FormValue r "go-get") "1") as [Hgo|]; [|done].
  intros [= <-]. simpl. split; [done|]. split; [done|]. exists routes.
  apply findPath_Some_inv in Hfind as (Hsrc & Hroot & _).
  split; [done|]. split; [done|]. split; [done|]. split; [|done].
  destruct (segment_ancestor_app _ _ Hroot) as [t ->]. apply HasPrefix_app.
Qed.

Lemma serve_page_sound_witness :
  "GET" = "GET" /\ "1" = "1" /\
  exists routes, Serving example_table = Serving routes /\
    routes !! "/net/lldp" =
      Some {| Vcs := "git"; Url := "https://example.org/net/lldp.git" |} /\
    segment_ancestor "/net/lldp" "/net/lldp/internal" /\
    strings.HasPrefix "/net/lldp/internal" "/net/lldp" = true /\
    "example.org" = "example.org".
Proof.
  apply (serve_page_sound example_srv (Serving example_table) get_request
           {| match_Source := {| Vcs := "git"; Url := "https://example.org/net/lldp.git" |};
              match_Host := "example.org"; match_Path := "/net/lldp" |}).
  reflexivity.
Defined.

(** X18. While [loadConfig] is in its [select], a GET request is answered
    with 404 Not Found exactly when no key of the table is an ancestor of
    its path; the go-get parameter does not matter to that. *)
Theorem serve_not_found_iff (srv : Server) (routes : Router) (r : Request) :
  Method r = "GET" ->
  serve srv (Serving routes) r = Some (HttpError "Not Found" 404) <->
  forall prefix, segment_ancestor prefix (URL_Path r) -> routes !! prefix = None.
Proof.
  intros Hget. rewrite serve_GET by done. simpl.
  destruct (findPath routes (URL_Path r)) as [[src root]|] eqn:Hfind.
  - apply findPath_Some_inv in Hfind as (Hsrc & Hroot & _). split.
    + by destruct (negb _).
    + intros Hnone. by rewrite (Hnone root Hroot) in Hsrc.
  - split; [|done]. intros _ prefix Hprefix. by eapply findPath_None_inv.
Qed.

Lemma serve_not_found_iff_witness :
  serve example_srv (Serving example_table) other_request =
    Some (HttpError "Not Found" 404) /\
  example_table !! "" = None.
Proof.
  split; [reflexivity|].
  apply (proj1 (serve_not_found_iff example_srv example_table other_request eq_refl)
           eq_refl "").
  right. by exists "other".
Defined.

(** X19. While [loadConfig] is in its [select], a request is redirected
    exactly when its method is GET, its go-get parameter is not "1" and a key
    of the table is an ancestor of its path; the redirect is a 303 to
    godoc.org with the host and the whole path of the request, not the
    root the path resolves to. *)
Theorem serve_redirect_iff (srv : Server) (routes : Router) (r : Request)
    (url : string) (code : Z) :
  serve srv (Serving routes) r = Some (Redirect url code) <->
  Method r = "GET" /\ FormValue r "go-get" <> "1" /\
  (exists prefix, segment_ancestor prefix (URL_Path r) /\ is_Some (routes !! prefix)) /\
  url = "http://godoc.org/" +:+ Host r +:+ URL_Path r /\ code = 303.
Proof.
  destruct (decide (Method r = "GET")) as [Hget|Hother].
  - rewrite serve_GET by done. simpl.
    destruct (findPath routes (URL_Path r)) as [[src root]|] eqn:Hfind.
    + apply findPath_Some_inv in Hfind as (Hsrc & Hroot & _).
      destruct (String.eqb_spec (FormValue r "go-get") "1") as [Hgo|Hgo]; simpl.
      * split; [done|]. by intros (_ & ? & _).
      * split.
        -- intros [= <- <-]. repeat split; try done. exists root. eauto.
        -- by intros (_ & _ & _ & -> & ->).
    + split; [done|]. intros (_ & _ & (prefix & Hprefix & [src Hsrc]) & _).
      by rewrite (findPath_None_inv _ _ _ Hfind Hprefix) in Hsrc.
  - rewrite serve_not_GET by done. split; [done|]. by intros [? _].
Qed.

(** X20. From the file to the page: when the file of the server loads at
    the start, a GET request with go-get=1 for the prefix of a record of the
    file is answered with the page of that record, with the [Vcs] and the
    [Url] of its line. *)
Theorem load_then_serve (srv : Server) (fs : FS) (file : File) (line p v u : string)
    (r : Request) :
  fs (config srv) = inr file -> Err file = None ->
  NoDup (records (Text file)).*1 ->
  line ∈ Text file -> is_comment line = false -> strings.Fields line = [p; v; u] ->
  Method r = "GET" -> URL_Path r = p -> FormValue r "go-get" = "1" ->
  exists st,
    run srv Initializing [Loaded fs] = Some (st, [Silent]) /\
    serve srv st r =
      Some (Page {| match_Source := {| Vcs := v; Url := u |};
                    match_Host := Host r; match_Path := p |}).
Proof.
  intros Hopen Herr Hnd Hline Hcomment Hfields Hget Hpath Hgo.
  destruct (scan_loop_NoDup (config srv) (Text file) 0 ∅ Hnd) as [t Ht]; [done|].
  assert (NewRouter fs (config srv) = (Some t, None)) as Hload.
  { by rewrite (NewRouter_opened _ _ _ Hopen), Ht, Herr. }
  assert (t !! p = Some {| Vcs := v; Url := u |}) as Hp.
  { apply (scan_loop_inr_elem _ _ _ _ _ _ Ht). unfold records.
    apply list_elem_of_omap. exists line. split; [done|].
    by apply record_of_Some. }
  exists (Serving t). split.
  - cbn [run step]. by rewrite Hload.
  - rewrite serve_GET by done. simpl.
    by rewrite Hpath, (findPath_here _ _ _ Hp), Hgo.
Qed.

Lemma load_then_serve_witness :
  exists st,
    run example_srv Initializing [Loaded example_fs] = Some (st, [Silent]) /\
    serve example_srv st www_request =
      Some (Page {| match_Source := {| Vcs := "hg"; Url := "https://example.org/www" |};
                    match_Host := "example.org"; match_Path := "/www" |}).
Proof.
  apply (load_then_serve example_srv example_fs example_file
           "/www hg https://example.org/www" "/www" "hg" "https://example.org/www"
           www_request); try reflexivity.
  - apply (bool_decide_unpack _). vm_compute. exact I.
  - apply (bool_decide_unpack _). vm_compute. exact I.
Defined.

(** A browser, which sends no go-get parameter, is sent to godoc.org. *)
Example serve_browser :
  serve example_srv (Serving example_table) browser_request =
    Some (Redirect "http://godoc.org/example.org/net/lldp/internal" 303).
Proof. reflexivity. Qed.

(** ** The variant that reads with [bufio.Reader] *)

Lemma reader_read_loop_wrap (filename : string) (lines : list string) (n : Z) (r : Router) :
  ReaderVariant.read_loop filename lines (int_wrap n) r =
  ReaderVariant.read_loop filename lines n r.
Proof.
  destruct lines as [|line rest]; [done|].
  cbn [ReaderVariant.read_loop]. by rewrite int_wrap_plus.
Qed.

Lemma reader_read_loop_app (filename : string) (lines more : list string) (n : Z)
    (r : Router) :
  ReaderVariant.read_loop filename (lines ++ more) n r =
    match ReaderVariant.read_loop filename lines n r with
    | inl e => inl e
    | inr r' => ReaderVariant.read_loop filename more (n + Z.of_nat (length lines)) r'
    end.
Proof.
  revert n r. induction lines as [|line rest IH]; intros n r.
  - simpl. by rewrite Z.add_0_r.
  - rewrite <- app_comm_cons. cbn [ReaderVariant.read_loop]. cbv zeta.
    assert (forall r0,
              ReaderVariant.read_loop filename more
                (n + Z.of_nat (length (line :: rest))) r0 =
              ReaderVariant.read_loop filename more
                (int_wrap (n + 1) + Z.of_nat (length rest)) r0) as Hcount.
    { intros r0.
      rewrite <- (reader_read_loop_wrap _ _ (int_wrap (n + 1) + _)), int_wrap_plus.
      rewrite reader_read_loop_wrap. f_equal. simpl length. lia. }
    destruct (String.length line <? 2)%nat.
    { rewrite IH.
      destruct (ReaderVariant.read_loop filename rest _ _); [done|by rewrite Hcount]. }
    destruct (match String.get 0 line with Some c => Ascii.eqb c "#" | None => false end).
    { rewrite IH.
      destruct (ReaderVariant.read_loop filename rest _ _); [done|by rewrite Hcount]. }
    destruct (negb (length (strings.Fields line) =? 3)%nat); [done|].
    destruct (r !! _); [done|]. rewrite IH.
    destruct (ReaderVariant.read_loop filename rest _ _); [done|by rewrite Hcount].
Qed.

Lemma reader_read_loop_bad_line (filename line : string) (rest : list string) (n : Z)
    (r : Router) :
  ReaderVariant.passed_over line = false ->
  length (strings.Fields line) <> 3%nat ->
  ReaderVariant.read_loop filename (line :: rest) n r =
    inl (ReaderVariant.TooManyFields filename (int_wrap (n + 1)) line).
Proof.
  unfold ReaderVariant.passed_over. intros [Hlen Hhash]%orb_false_iff Hfields.
  cbn [ReaderVariant.read_loop]. cbv zeta. rewrite Hlen, Hhash.
  by destruct (Nat.eqb_spec (length (strings.Fields line)) 3).
Qed.

(** X21. In the variant, a line of two bytes or more that does not start
    with "#" and has not exactly three fields makes the load fail: the
    result is the nil map and an error, and when the lines before it go
    through, the error is the one for too many fields, with the name of the
    file, the number of the line counted from 1, and the line. A line of
    white space alone is such a line. *)
Theorem reader_NewRouter_strict (fs : ReaderVariant.FS) (filename : string)
    (file : ReaderVariant.File) (m : nat) (line : string) :
  fs filename = inr file ->
  (ReaderVariant.read_lines (ReaderVariant.Data file)).1 !! m = Some line ->
  ReaderVariant.passed_over line = false ->
  length (strings.Fields line) <> 3%nat ->
  (exists e, ReaderVariant.NewRouter fs filename = (None, Some e)) /\
  forall r0,
    ReaderVariant.read_loop filename
      (take m (ReaderVariant.read_lines (ReaderVariant.Data file)).1) 0 ∅ = inr r0 ->
    ReaderVariant.NewRouter fs filename =
      (None, Some (ReaderVariant.TooManyFields filename (int_wrap (Z.of_nat m + 1)) line)).
Proof.
  intros Hopen Hline Hkept Hfields. unfold ReaderVariant.NewRouter. rewrite Hopen.
  set (lines := (ReaderVariant.read_lines (ReaderVariant.Data file)).1) in *.
  assert (ReaderVariant.read_loop filename lines 0 ∅ =
            match ReaderVariant.read_loop filename (take m lines) 0 ∅ with
            | inl e => inl e
            | inr r' =>
                ReaderVariant.read_loop filename (line :: drop (S m) lines)
                  (0 + Z.of_nat (length (take m lines))) r'
            end) as ->.
  { rewrite <- reader_read_loop_app. by rewrite take_drop_middle. }
  assert (length (take m lines) = m) as Hlen.
  { apply lookup_lt_Some in Hline. rewrite length_take. lia. }
  destruct (ReaderVariant.read_loop filename (take m _) 0 ∅) as [e|r1] eqn:Hbefore.
  - split; [by exists e|]. by intros r0 [=].
  - rewrite (reader_read_loop_bad_line _ _ _ _ _ Hkept Hfields), Hlen.
    split; [by eexists|]. by intros r0 _.
Qed.

Lemma reader_NewRouter_strict_witness :
  ReaderVariant.NewRouter ReaderVariant.spaces_fs "config" =
    (None, Some (ReaderVariant.TooManyFields "config" 2 ("  " +:+ String "010" ""))).
Proof.
  refine (proj2 (reader_NewRouter_strict ReaderVariant.spaces_fs "config"
                   ReaderVariant.spaces_file 1 ("  " +:+ String "010" "")
                   eq_refl eq_refl eq_refl _)
            {["/www" := {| Vcs := "hg"; Url := "https://example.org/www" |}]} eq_refl).
  discriminate.
Defined.

Lemma reader_read_lines_tail (data tail : string) :
  ReaderVariant.has_newline tail = false ->
  (ReaderVariant.read_lines (data +:+ tail)).1 = (ReaderVariant.read_lines data).1.
Proof.
  intros Htail. induction data as [|c data IH].
  - change ("" +:+ tail) with tail. simpl.
    induction tail as [|c tail IHt]; [done|].
    cbn [ReaderVariant.has_newline] in Htail.
    apply orb_false_iff in Htail as [Hc Htail]. specialize (IHt Htail).
    cbn [ReaderVariant.read_lines].
    destruct (ReaderVariant.read_lines tail) as [lines rest]. simpl in IHt.
    by rewrite Hc, IHt.
  - rewrite app_cons. cbn [ReaderVariant.read_lines].
    destruct (ReaderVariant.read_lines (data +:+ tail)) as [lines rest].
    destruct (ReaderVariant.read_lines data) as [lines' rest']. simpl in IH.
    subst lines'. destruct (Ascii.eqb c "010"); [done|]. by destruct lines.
Qed.

(** X22. In the variant, bytes after the last newline of the file are
    never looked at: a last line without a newline, well formed or not,
    changes nothing in what the load returns. *)
Theorem reader_NewRouter_unterminated (fs fs' : ReaderVariant.FS) (filename : string)
    (file file' : ReaderVariant.File) (tail : string) :
  fs filename = inr file -> fs' filename = inr file' ->
  ReaderVariant.Data file' = ReaderVariant.Data file +:+ tail ->
  ReaderVariant.has_newline tail = false ->
  ReaderVariant.ReadErr file' = ReaderVariant.ReadErr file ->
  ReaderVariant.NewRouter fs' filename = ReaderVariant.NewRouter fs filename.
Proof.
  intros Hopen Hopen' Hdata Htail Herr. unfold ReaderVariant.NewRouter.
  by rewrite Hopen, Hopen', Hdata, reader_read_lines_tail, Herr.
Qed.

Lemma reader_NewRouter_unterminated_witness :
  ReaderVariant.NewRouter ReaderVariant.unterminated_fs "config" =
    ReaderVariant.NewRouter ReaderVariant.spaces_fs "config".
Proof.
  apply (reader_NewRouter_unterminated ReaderVariant.spaces_fs
           ReaderVariant.unterminated_fs "config" ReaderVariant.spaces_file
           ReaderVariant.unterminated_file "/net git");
    reflexivity.
Defined.

(** The variant returns the nil map with every error. *)
Lemma reader_NewRouter_error (fs : ReaderVariant.FS) (filename : string) nr err :
  ReaderVariant.NewRouter fs filename = (nr, Some err) -> nr = None.
Proof.
  unfold ReaderVariant.NewRouter. destruct (fs filename) as [e|file]; [by intros [= <- _]|].
  destruct (ReaderVariant.read_loop filename _ 0 ∅) as [e|t]; [by intros [= <- _]|].
  by destruct (ReaderVariant.ReadErr file); intros [= <- _].
Qed.

Lemma findPath_empty (path : string) : findPath ∅ path = None.
Proof.
  destruct (findPath ∅ path) as [[src root]|] eqn:Hfind; [|done].
  apply findPath_Some_inv in Hfind as [Hsrc _]. by rewrite lookup_empty in Hsrc.
Qed.

(** X23. In the variant, a reload that fails is logged and then takes the
    routes away: [Run] goes on with the nil map [NewRouter] returned, so
    every receive that follows yields the nil map, in which no path
    resolves. *)
Theorem reader_reload_failure_loses_routes (srv : Server) (r : option Router)
    (fs : ReaderVariant.FS) (err : ReaderVariant.error) :
  (ReaderVariant.NewRouter fs (config srv)).2 = Some err ->
  (forall n,
     ReaderVariant.run srv (ReaderVariant.Serving r)
       (ReaderVariant.Signal ReaderVariant.SIGHUP :: ReaderVariant.Loaded fs ::
        replicate n ReaderVariant.Receive) =
     Some (ReaderVariant.Serving None,
           ReaderVariant.Silent :: ReaderVariant.Log err ::
           replicate n (ReaderVariant.Deliver None))) /\
  forall path, findPath (table None) path = None.
Proof.
  intros Hfail. split; [|apply findPath_empty].
  assert (ReaderVariant.step srv (ReaderVariant.Reloading r) (ReaderVariant.Loaded fs) =
            Some (ReaderVariant.Serving None, ReaderVariant.Log err)) as Hstep.
  { cbn [ReaderVariant.step].
    destruct (ReaderVariant.NewRouter fs (config srv)) as [nr e] eqn:Hload.
    simpl in Hfail. subst e. by rewrite (reader_NewRouter_error _ _ _ _ Hload). }
  intros n. cbn [ReaderVariant.run].
  change (ReaderVariant.step srv (ReaderVariant.Serving r)
            (ReaderVariant.Signal ReaderVariant.SIGHUP))
    with (Some (ReaderVariant.Reloading r, ReaderVariant.Silent)).
  cbv beta iota. rewrite Hstep.
  assert (ReaderVariant.run srv (ReaderVariant.Serving None)
            (replicate n ReaderVariant.Receive) =
          Some (ReaderVariant.Serving None, replicate n (ReaderVariant.Deliver None)))
    as ->; [|done].
  induction n as [|n IH]; [done|].
  cbn [replicate ReaderVariant.run ReaderVariant.step]. by rewrite IH.
Qed.

Lemma reader_reload_failure_loses_routes_witness :
  ReaderVariant.run example_srv (ReaderVariant.Serving (Some example_table))
    [ReaderVariant.Signal ReaderVariant.SIGHUP;
     ReaderVariant.Loaded ReaderVariant.missing_fs; ReaderVariant.Receive] =
  Some (ReaderVariant.Serving None,
        [ReaderVariant.Silent;
         ReaderVariant.Log (ReaderVariant.SysError "open config: no such file or directory");
         ReaderVariant.Deliver None]).
Proof.
  exact (proj1 (reader_reload_failure_loses_routes example_srv (Some example_table)
                  ReaderVariant.missing_fs
                  (ReaderVariant.SysError "open config: no such file or directory")
                  eq_refl) 1%nat).
Defined.
